(** * Blackjack engine of discord-bot-pro: a shallow embedding

    The development follows [src/cogs/blackjack.py]: the card and deck
    definitions, the hand evaluator [hand_value], the solo session
    [BlackjackSession] with the three button handlers of [BlackjackUI],
    and the table session [BlackjackTableSession].

    Python integers are [Z]; counters that start at [0] and only move by
    one are [nat]; Python lists are Rocq lists in the same order (so
    [list.pop()] removes the LAST element); dictionaries are [gmap]s.
    A method that mutates [self] is a function from the state before to a
    result that carries the state after, also when it raises. *)

From Stdlib Require Import ZArith List Bool Lia.
From stdpp Require Import base option list gmap fin_maps.
From Equations Require Import Equations.
From Equations.Prop Require Import Logic.

Local Open Scope Z_scope.

(* ================================================================== *)
(** ** Cards and decks *)

(** [RANKS = ["A","2",...,"10","J","Q","K"]]: the thirteen rank strings. *)
Inductive rank : Type :=
| Ace | Two | Three | Four | Five | Six | Seven | Eight | Nine | Ten
| Jack | Queen | King.

(** [SUITS = [spades, hearts, diamonds, clubs]]. *)
Inductive suit : Type := Spades | Hearts | Diamonds | Clubs.

Definition card : Type := rank * suit.

Definition RANKS : list rank :=
  [Ace; Two; Three; Four; Five; Six; Seven; Eight; Nine; Ten; Jack; Queen; King].

Definition SUITS : list suit := [Spades; Hearts; Diamonds; Clubs].

#[global] Instance rank_eq_dec : EqDecision rank.
Proof. solve_decision. Defined.

#[global] Instance suit_eq_dec : EqDecision suit.
Proof. solve_decision. Defined.

(** [make_deck]: [[(r, s) for s in SUITS for r in RANKS]], suits in the
    outer loop. *)
Definition make_deck : list card :=
  flat_map (fun s => map (fun r => (r, s)) RANKS) SUITS.

(** [int(rank)] on the nine numeric rank strings. *)
Definition rank_int (r : rank) : Z :=
  match r with
  | Two => 2 | Three => 3 | Four => 4 | Five => 5 | Six => 6
  | Seven => 7 | Eight => 8 | Nine => 9 | Ten => 10
  | Ace | Jack | Queen | King => 0
  end.

(** [card_value(rank)]. *)
Definition card_value (r : rank) : Z :=
  match r with
  | Jack | Queen | King => 10
  | Ace => 11
  | _ => rank_int r
  end.

(** One iteration of the [for r, _ in cards] loop of [hand_value]: the
    accumulator is the pair [(total, aces)]. *)
Definition tally (acc : Z * nat) (c : card) : Z * nat :=
  let v := card_value (fst c) in
  (fst acc + v, if decide (fst c = Ace) then S (snd acc) else snd acc).

(** [while total > 21 and aces > 0: total -= 10; aces -= 1], returning the
    final [total]. *)
Fixpoint soften (total : Z) (aces : nat) : Z :=
  match aces with
  | O => total
  | S aces' => if 21 <? total then soften (total - 10) aces' else total
  end.

(** [hand_value(cards)] returns [(value, is_blackjack)]. *)
Definition hand_value (cards : list card) : Z * bool :=
  let acc := fold_left tally cards (0, 0%nat) in
  let total := soften (fst acc) (snd acc) in
  (total, Nat.eqb (length cards) 2 && (total =? 21)).

(** The first component of [hand_value], used wherever the source writes
    [value, _ = hand_value(...)]. *)
Definition value_of (cards : list card) : Z := fst (hand_value cards).

(* ================================================================== *)
(** ** The random generator behind [random.shuffle]

    The generator is library state outside the repository.  It is modelled
    as an arbitrary tape of natural numbers with a read position;
    [randbelow n] reads one entry and reduces it below [n].  [shuffle] is
    the loop of CPython's [Random.shuffle]:
    [for i in reversed(range(1, len(x))): j = randbelow(i + 1);
     x[i], x[j] = x[j], x[i]]. *)
Module Random.

Record Rng : Type := mkRng { tape : nat -> nat; pos : nat }.

Definition randbelow (n : nat) (g : Rng) : nat * Rng :=
  (Nat.modulo (tape g (pos g)) n, mkRng (tape g) (S (pos g))).

(** [x[i], x[j] = x[j], x[i]] for indices in range. *)
Definition swap {A} (i j : nat) (x : list A) : list A :=
  match x !! i, x !! j with
  | Some a, Some b => <[i := b]> (<[j := a]> x)
  | _, _ => x
  end.

Fixpoint shuffle_from {A} (i : nat) (x : list A) (g : Rng) : list A * Rng :=
  match i with
  | O => (x, g)
  | S i' =>
      let '(j, g') := randbelow (S i) g in
      shuffle_from i' (swap i j x) g'
  end.

Definition shuffle {A} (x : list A) (g : Rng) : list A * Rng :=
  shuffle_from (Nat.pred (length x)) x g.

End Random.

(* ================================================================== *)
(** ** Results of methods: normal return or a raised exception *)

Inductive exn : Type := IndexError | KeyError.

Inductive res (St A : Type) : Type :=
| Ok (a : A) (s : St)
| Raise (e : exn) (s : St).
Arguments Ok {St A} a s.
Arguments Raise {St A} e s.

Definition M (St A : Type) : Type := St -> res St A.

Definition ret {St A} (a : A) : M St A := fun s => Ok a s.

Definition bind {St A B} (m : M St A) (k : A -> M St B) : M St B :=
  fun s => match m s with
           | Ok a s' => k a s'
           | Raise e s' => Raise e s'
           end.

Definition raise {St A} (e : exn) : M St A := fun s => Raise e s.

Definition gets {St A} (f : St -> A) : M St A := fun s => Ok (f s) s.

Definition modify {St} (f : St -> St) : M St unit := fun s => Ok tt (f s).

Declare Scope py_scope.
Delimit Scope py_scope with py.
Notation "x <- m ;; k" := (bind m (fun x => k))
  (at level 100, m at next level, right associativity) : py_scope.
Notation "m ;;; k" := (bind m (fun _ => k))
  (at level 100, right associativity) : py_scope.

(** The state after a call, whichever way it ended. *)
Definition state_of {St A} (r : res St A) : St :=
  match r with Ok _ s => s | Raise _ s => s end.

(** [list.pop()]: the last element and the list without it; [None] stands
    for the [IndexError] of popping an empty list. *)
Definition list_pop {A} (l : list A) : option (A * list A) :=
  match last l with
  | Some x => Some (x, removelast l)
  | None => None
  end.

(** The three outcomes written into [result] / [results]. *)
Inductive outcome : Type := Win | Lose | Push.

#[global] Instance outcome_eq_dec : EqDecision outcome.
Proof. solve_decision. Defined.

(* ================================================================== *)
(** ** Facts about the hand evaluator *)

(** The value of a rank when every ace counts one. *)
Definition hard_value (r : rank) : Z :=
  match r with Ace => 1 | _ => card_value r end.

Definition hard_total (cards : list card) : Z :=
  fold_right (fun c acc => hard_value (fst c) + acc) 0 cards.

(** The sum of the rank values with every ace at eleven. *)
Definition raw_total (cards : list card) : Z :=
  fold_right (fun c acc => card_value (fst c) + acc) 0 cards.

(** The number of aces in a hand. *)
Definition count_aces (cards : list card) : nat :=
  fold_right (fun c n => if decide (fst c = Ace) then S n else n) 0%nat cards.

Lemma tally_fold cards : forall t a,
  fold_left tally cards (t, a) = (t + raw_total cards, (a + count_aces cards)%nat).
Proof.
  induction cards as [|c cards IH]; intros t a; simpl.
  - f_equal; lia.
  - unfold tally at 2; simpl. rewrite IH.
    destruct (decide (fst c = Ace)); simpl; f_equal; lia.
Qed.

Lemma hand_value_unfold cards :
  hand_value cards =
  (soften (raw_total cards) (count_aces cards),
   Nat.eqb (length cards) 2 && (soften (raw_total cards) (count_aces cards) =? 21)).
Proof. unfold hand_value. rewrite tally_fold. reflexivity. Qed.

Lemma value_of_unfold cards :
  value_of cards = soften (raw_total cards) (count_aces cards).
Proof. unfold value_of. rewrite hand_value_unfold. reflexivity. Qed.

Lemma raw_hard cards :
  raw_total cards = hard_total cards + 10 * Z.of_nat (count_aces cards).
Proof.
  induction cards as [|[r s] cards IH]; simpl; [reflexivity|].
  destruct (decide (r = Ace)) as [->|Hr].
  - simpl. lia.
  - destruct r; simpl; try lia; congruence.
Qed.

Lemma soften_lower aces : forall total, total - 10 * Z.of_nat aces <= soften total aces.
Proof.
  induction aces as [|a IH]; intros total; simpl soften.
  - lia.
  - destruct (21 <? total); [specialize (IH (total - 10))|]; lia.
Qed.

Lemma soften_upper aces : forall total, soften total aces <= total.
Proof.
  induction aces as [|a IH]; intros total; simpl soften.
  - lia.
  - destruct (21 <? total); [specialize (IH (total - 10))|]; lia.
Qed.

Lemma hard_le_value cards : hard_total cards <= value_of cards.
Proof.
  rewrite value_of_unfold.
  pose proof (soften_lower (count_aces cards) (raw_total cards)).
  pose proof (raw_hard cards). lia.
Qed.

Lemma hard_value_pos r : 1 <= hard_value r.
Proof. destruct r; simpl; lia. Qed.

Lemma hard_total_snoc cards c :
  hard_total (cards ++ [c]) = hard_total cards + hard_value (fst c).
Proof.
  induction cards as [|d cards IH]; simpl in *; [lia|]. rewrite IH. lia.
Qed.

Lemma hard_total_nonneg cards : 0 <= hard_total cards.
Proof.
  induction cards as [|d cards IH]; simpl; [lia|].
  pose proof (hard_value_pos (fst d)). lia.
Qed.

(* ================================================================== *)
(** ** Facts about [list_pop] and [shuffle] *)

Lemma list_pop_snoc {A} (l : list A) (x : A) : list_pop (l ++ [x]) = Some (x, l).
Proof. unfold list_pop. rewrite last_snoc, removelast_last. reflexivity. Qed.

Lemma list_pop_Some {A} (l : list A) x rest :
  list_pop l = Some (x, rest) <-> l = rest ++ [x].
Proof.
  split.
  - destruct l as [|y l] using rev_ind; [discriminate|].
    rewrite list_pop_snoc. congruence.
  - intros ->. apply list_pop_snoc.
Qed.

Lemma list_pop_None {A} (l : list A) : list_pop l = None <-> l = [].
Proof.
  split.
  - destruct l as [|y l] using rev_ind; [reflexivity|].
    rewrite list_pop_snoc. discriminate.
  - intros ->. reflexivity.
Qed.

Lemma delete_insert_same {A} (l : list A) : forall i x,
  delete i (<[i := x]> l) = delete i l.
Proof.
  induction l as [|y l IH]; intros [|i] x; simpl; try reflexivity.
  f_equal. apply IH.
Qed.

Lemma insert_Permutation {A} (l : list A) i x y :
  l !! i = Some y -> x :: l ≡ₚ y :: <[i := x]> l.
Proof.
  intros Hy.
  assert (Hx : <[i := x]> l !! i = Some x).
  { apply list_lookup_insert_eq. eapply lookup_lt_Some, Hy. }
  rewrite (delete_Permutation l i y Hy) at 1.
  rewrite (delete_Permutation (<[i := x]> l) i x Hx) at 1.
  rewrite delete_insert_same. apply Permutation_swap.
Qed.

Lemma swap_Permutation {A} i j (x : list A) : Random.swap i j x ≡ₚ x.
Proof.
  unfold Random.swap.
  destruct (x !! i) as [a|] eqn:Hi; [|reflexivity].
  destruct (x !! j) as [b|] eqn:Hj; [|reflexivity].
  destruct (decide (i = j)) as [->|Hne].
  - assert (a = b) by congruence; subst b.
    rewrite !list_insert_id; [reflexivity|assumption|].
    rewrite list_insert_id; assumption.
  - apply (Permutation_cons_inv (a := a)).
    assert (Hi' : <[j := a]> x !! i = Some a).
    { rewrite list_lookup_insert_ne by congruence. assumption. }
    rewrite <- (insert_Permutation (<[j := a]> x) i b a Hi').
    symmetry. apply insert_Permutation, Hj.
Qed.

Lemma shuffle_from_Permutation {A} i : forall (x : list A) g,
  fst (Random.shuffle_from i x g) ≡ₚ x.
Proof.
  induction i as [|i IH]; intros x g; simpl; [reflexivity|].
  rewrite IH. apply swap_Permutation.
Qed.

Lemma shuffle_Permutation {A} (x : list A) g : fst (Random.shuffle x g) ≡ₚ x.
Proof. apply shuffle_from_Permutation. Qed.

Lemma shuffle_length {A} (x : list A) g :
  length (fst (Random.shuffle x g)) = length x.
Proof. apply Permutation_length, shuffle_Permutation. Qed.

Lemma two_decks_length : length (make_deck ++ make_deck) = 104%nat.
Proof. reflexivity. Qed.

(* ================================================================== *)
(** ** The solo session: [BlackjackSession] and the handlers of [BlackjackUI] *)
Module Solo.

Record Session : Type := mkSession {
  player_id : Z;
  deck : list card;
  player : list card;
  dealer : list card;
  finished : bool;
  result : option outcome;
  rng : Random.Rng
}.

Definition set_deck (d : list card) (s : Session) : Session :=
  mkSession (player_id s) d (player s) (dealer s) (finished s) (result s) (rng s).

Definition set_player (h : list card) (s : Session) : Session :=
  mkSession (player_id s) (deck s) h (dealer s) (finished s) (result s) (rng s).

Definition set_dealer (h : list card) (s : Session) : Session :=
  mkSession (player_id s) (deck s) (player s) h (finished s) (result s) (rng s).

Definition set_finished (b : bool) (s : Session) : Session :=
  mkSession (player_id s) (deck s) (player s) (dealer s) b (result s) (rng s).

Definition set_result (r : option outcome) (s : Session) : Session :=
  mkSession (player_id s) (deck s) (player s) (dealer s) (finished s) r (rng s).

Definition set_rng (g : Random.Rng) (s : Session) : Session :=
  mkSession (player_id s) (deck s) (player s) (dealer s) (finished s) (result s) g.

(** [self.deck = make_deck() + make_deck(); random.shuffle(self.deck)]. *)
Definition reshuffle (s : Session) : Session :=
  let '(d, g) := Random.shuffle (make_deck ++ make_deck) (rng s) in
  set_rng g (set_deck d s).

(** [__init__(player_id)], with the generator the shuffle reads from. *)
Definition init (pid : Z) (g : Random.Rng) : Session :=
  reshuffle (mkSession pid [] [] [] false None g).

(** [draw]: refill when [not self.deck], then [self.deck.pop()]. *)
Definition draw : M Session card := fun s =>
  let s1 := match deck s with [] => reshuffle s | _ :: _ => s end in
  match list_pop (deck s1) with
  | Some (c, rest) => Ok c (set_deck rest s1)
  | None => Raise IndexError s1
  end.

(** [start]: two cards to the player, then two to the dealer. *)
Definition start : M Session unit :=
  (c1 <- draw ;; c2 <- draw ;; modify (set_player [c1; c2]) ;;;
   c3 <- draw ;; c4 <- draw ;; modify (set_dealer [c3; c4]))%py.

(** The [target] argument of [hit]: the string ["player"], or anything
    else (the source passes ["dealer"]). *)
Inductive target : Type := ToPlayer | ToDealer.

Definition hit (t : target) : M Session unit :=
  (c <- draw ;;
   modify (fun s => match t with
                    | ToPlayer => set_player (player s ++ [c]) s
                    | ToDealer => set_dealer (dealer s ++ [c]) s
                    end))%py.

(** [settle]. *)
Definition settle : M Session unit := modify (fun s =>
  let '(pv, pbj) := hand_value (player s) in
  let '(dv, dbj) := hand_value (dealer s) in
  let r :=
    if 21 <? pv then Lose
    else if 21 <? dv then Win
    else if pbj && negb dbj then Win
    else if dbj && negb pbj then Lose
    else if dv <? pv then Win
    else if pv <? dv then Lose
    else Push in
  set_finished true (set_result (Some r) s)).

(** What [draw] does to the fields other than the deck and the generator. *)
Lemma solo_draw_ok s : exists c s',
  draw s = Ok c s' /\ player s' = player s /\ dealer s' = dealer s /\
  finished s' = finished s /\ result s' = result s /\ player_id s' = player_id s.
Proof.
  unfold draw. destruct (deck s) as [|c0 d0] eqn:Hd.
  - unfold reshuffle.
    destruct (Random.shuffle (make_deck ++ make_deck) (rng s)) as [d g] eqn:Hs.
    simpl. destruct (list_pop d) as [[c rest]|] eqn:Hp.
    + exists c; eexists; repeat split.
    + apply list_pop_None in Hp. subst d.
      pose proof (shuffle_length (make_deck ++ make_deck) (rng s)) as Hl.
      rewrite Hs in Hl. discriminate Hl.
  - rewrite Hd. destruct (list_pop (c0 :: d0)) as [[c rest]|] eqn:Hp.
    + exists c; eexists; repeat split.
    + apply list_pop_None in Hp. discriminate.
Qed.

Lemma hit_dealer_ok s : exists c s',
  hit ToDealer s = Ok tt s' /\ dealer s' = dealer s ++ [c] /\
  player s' = player s /\ finished s' = finished s /\ result s' = result s /\
  player_id s' = player_id s.
Proof.
  destruct (solo_draw_ok s) as (c & s1 & Hd & Hp & Hde & Hf & Hr & Hi).
  exists c. eexists. unfold hit, bind, modify. rewrite Hd.
  split; [reflexivity|]. simpl. rewrite Hde. repeat split; assumption.
Qed.

Lemma hit_player_ok s : exists c s',
  hit ToPlayer s = Ok tt s' /\ player s' = player s ++ [c] /\
  dealer s' = dealer s /\ finished s' = finished s /\ result s' = result s /\
  player_id s' = player_id s.
Proof.
  destruct (solo_draw_ok s) as (c & s1 & Hd & Hp & Hde & Hf & Hr & Hi).
  exists c. eexists. unfold hit, bind, modify. rewrite Hd.
  split; [reflexivity|]. simpl. rewrite Hp. repeat split; assumption.
Qed.

(** [dealer_play]: [while True: value, _ = hand_value(self.dealer);
    if value < 17: self.hit("dealer") else: break].  The hard total of the
    dealer hand grows with every card and bounds the value from below. *)
Equations? dealer_play (s : Session) : res Session unit
  by wf (Z.to_nat (17 - hard_total (dealer s))) lt :=
dealer_play s with inspect (value_of (dealer s) <? 17) := {
  | exist _ true Hlow with inspect (hit ToDealer s) := {
      | exist _ (Ok _ s') Hhit := dealer_play s'
      | exist _ (Raise e s') _ := Raise e s' }
  | exist _ false _ := Ok tt s }.
Proof.
  destruct (hit_dealer_ok s) as (c & s2 & Hh & Hd & _).
  rewrite Hh in Hhit. inversion Hhit; subst s'.
  rewrite Hd, hard_total_snoc.
  pose proof (hard_value_pos (fst c)).
  pose proof (hard_le_value (dealer s)).
  apply Z.ltb_lt in Hlow. lia.
Qed.

(** The loop, unfolded once. *)
Lemma solo_dealer_play_step s :
  dealer_play s =
  if value_of (dealer s) <? 17
  then bind (hit ToDealer) (fun _ => dealer_play) s
  else Ok tt s.
Proof.
  rewrite dealer_play_equation_1. unfold bind.
  unfold inspect. simpl.
  destruct (value_of (dealer s) <? 17); [|reflexivity].
  destruct (hit ToDealer s); reflexivity.
Qed.

(** [dealer_play] returns normally; the cards it drew extend the dealer
    hand, every hand it drew on was below 17 and the final one is not. *)
Lemma solo_dealer_play_spec s : exists drawn s',
  dealer_play s = Ok tt s' /\
  dealer s' = dealer s ++ drawn /\
  17 <= value_of (dealer s') /\
  (forall k, (k < length drawn)%nat -> value_of (dealer s ++ take k drawn) < 17) /\
  player s' = player s /\ finished s' = finished s /\ result s' = result s /\
  player_id s' = player_id s.
Proof.
  remember (Z.to_nat (17 - hard_total (dealer s))) as n eqn:Hn.
  revert s Hn. induction n as [n IH] using lt_wf_ind. intros s Hn.
  rewrite solo_dealer_play_step.
  destruct (value_of (dealer s) <? 17) eqn:Hlow.
  - apply Z.ltb_lt in Hlow.
    destruct (hit_dealer_ok s) as (c & s1 & Hh & Hd & Hp & Hf & Hr & Hi).
    unfold bind. rewrite Hh.
    assert (Hm : (Z.to_nat (17 - hard_total (dealer s1)) < n)%nat).
    { rewrite Hd, hard_total_snoc.
      pose proof (hard_value_pos (fst c)). pose proof (hard_le_value (dealer s)). lia. }
    destruct (IH _ Hm s1 eq_refl) as (drawn & s' & Hdp & Hd' & Hv & Hk & Hp' & Hf' & Hr' & Hi').
    exists (c :: drawn), s'. rewrite Hdp. split; [reflexivity|].
    split; [rewrite Hd', Hd, <- app_assoc; reflexivity|].
    split; [assumption|].
    split; [|repeat split; congruence].
    intros [|k] Hlt; simpl.
    + rewrite app_nil_r. assumption.
    + specialize (Hk k ltac:(simpl in Hlt; lia)).
      rewrite Hd, <- app_assoc in Hk. exact Hk.
  - apply Z.ltb_ge in Hlow. exists [], s. rewrite app_nil_r.
    repeat split; try assumption. intros k Hk; simpl in Hk; lia.
Qed.

(** *** The button handlers of [BlackjackUI]

    Each handler first compares [interaction.user.id] with
    [self.session.player_id]; the messages it sends and [_refresh] do not
    touch the session. *)

Definition hit_btn (user : Z) : M Session unit := fun s =>
  if decide (user <> player_id s) then Ok tt s
  else (hit ToPlayer ;;;
        pv <- gets (fun s => value_of (player s)) ;;
        if 21 <? pv then dealer_play ;;; settle else ret tt)%py s.

Definition stand_btn (user : Z) : M Session unit := fun s =>
  if decide (user <> player_id s) then Ok tt s
  else (dealer_play ;;; settle)%py s.

Definition double_btn (user : Z) : M Session unit := fun s =>
  if decide (user <> player_id s) then Ok tt s
  else (hit ToPlayer ;;;
        pv <- gets (fun s => value_of (player s)) ;;
        (if pv <=? 21 then dealer_play else ret tt) ;;;
        settle)%py s.

End Solo.

(* ================================================================== *)
(** ** The table session: [BlackjackTableSession] *)
Module Table.

(** [turn_index] is set to [0] and otherwise only incremented, so it is a
    [nat]; the test [self.turn_index < 0] of [current_player_id] never
    fires, and [turn_index >= len(order)] is the lookup missing. *)
Record Session : Type := mkSession {
  guild_id : Z;
  channel_id : Z;
  host_id : Z;
  deck : list card;
  dealer : list card;
  players : gmap Z (list card);
  order : list Z;
  turn_index : nat;
  started : bool;
  finished : bool;
  results : gmap Z outcome;
  rng : Random.Rng
}.

Definition set_deck (d : list card) (s : Session) : Session :=
  mkSession (guild_id s) (channel_id s) (host_id s) d (dealer s) (players s)
    (order s) (turn_index s) (started s) (finished s) (results s) (rng s).

Definition set_dealer (h : list card) (s : Session) : Session :=
  mkSession (guild_id s) (channel_id s) (host_id s) (deck s) h (players s)
    (order s) (turn_index s) (started s) (finished s) (results s) (rng s).

Definition set_players (p : gmap Z (list card)) (s : Session) : Session :=
  mkSession (guild_id s) (channel_id s) (host_id s) (deck s) (dealer s) p
    (order s) (turn_index s) (started s) (finished s) (results s) (rng s).

Definition set_order (o : list Z) (s : Session) : Session :=
  mkSession (guild_id s) (channel_id s) (host_id s) (deck s) (dealer s) (players s)
    o (turn_index s) (started s) (finished s) (results s) (rng s).

Definition set_turn_index (i : nat) (s : Session) : Session :=
  mkSession (guild_id s) (channel_id s) (host_id s) (deck s) (dealer s) (players s)
    (order s) i (started s) (finished s) (results s) (rng s).

Definition set_started (b : bool) (s : Session) : Session :=
  mkSession (guild_id s) (channel_id s) (host_id s) (deck s) (dealer s) (players s)
    (order s) (turn_index s) b (finished s) (results s) (rng s).

Definition set_finished (b : bool) (s : Session) : Session :=
  mkSession (guild_id s) (channel_id s) (host_id s) (deck s) (dealer s) (players s)
    (order s) (turn_index s) (started s) b (results s) (rng s).

Definition set_results (r : gmap Z outcome) (s : Session) : Session :=
  mkSession (guild_id s) (channel_id s) (host_id s) (deck s) (dealer s) (players s)
    (order s) (turn_index s) (started s) (finished s) r (rng s).

Definition set_rng (g : Random.Rng) (s : Session) : Session :=
  mkSession (guild_id s) (channel_id s) (host_id s) (deck s) (dealer s) (players s)
    (order s) (turn_index s) (started s) (finished s) (results s) g.

Definition reshuffle (s : Session) : Session :=
  let '(d, g) := Random.shuffle (make_deck ++ make_deck) (rng s) in
  set_rng g (set_deck d s).

(** [__init__(guild_id, channel_id, host_id)]. *)
Definition init (gid cid hid : Z) (g : Random.Rng) : Session :=
  reshuffle (mkSession gid cid hid [] [] ∅ [] 0 false false ∅ g).

Definition draw : M Session card := fun s =>
  let s1 := match deck s with [] => reshuffle s | _ :: _ => s end in
  match list_pop (deck s1) with
  | Some (c, rest) => Ok c (set_deck rest s1)
  | None => Raise IndexError s1
  end.

(** [add_player(user_id)]; [user_id in self.players] tests the hand map. *)
Definition add_player (uid : Z) : M Session bool := fun s =>
  if started s || finished s then Ok false s
  else if decide (is_Some (players s !! uid)) then Ok false s
  else Ok true (set_order (order s ++ [uid])
                  (set_players (<[uid := []]> (players s)) s)).

(** [list.remove(x)]: drops the first occurrence; the [ValueError] for an
    absent element is caught by the caller, which leaves the list as is. *)
Fixpoint list_remove_first (x : Z) (l : list Z) : list Z :=
  match l with
  | [] => []
  | y :: l' => if decide (y = x) then l' else y :: list_remove_first x l'
  end.

Definition remove_player (uid : Z) : M Session bool := fun s =>
  if started s || finished s then Ok false s
  else if decide (is_Some (players s !! uid)) then
    Ok true (set_order (list_remove_first uid (order s))
               (set_players (delete uid (players s)) s))
  else Ok false s.

(** The loop [for uid in self.order: self.players[uid] = [draw(), draw()]]. *)
Fixpoint deal (uids : list Z) : M Session unit :=
  match uids with
  | [] => ret tt
  | uid :: rest =>
      (c1 <- draw ;; c2 <- draw ;;
       modify (fun s => set_players (<[uid := [c1; c2]]> (players s)) s) ;;;
       deal rest)%py
  end.

Definition start : M Session bool := fun s =>
  if started s || finished s then Ok false s
  else match order s with
       | [] => Ok false s
       | _ :: _ =>
           (modify (set_started true) ;;;
            c1 <- draw ;; c2 <- draw ;; modify (set_dealer [c1; c2]) ;;;
            uids <- gets order ;; deal uids ;;;
            modify (set_turn_index 0) ;;;
            ret true)%py s
       end.

Definition current_player_id (s : Session) : option Z :=
  if negb (started s) || finished s then None
  else order s !! turn_index s.

(** [self.players.get(uid, [])]. *)
Definition hand_of (uid : Z) (s : Session) : list card :=
  default [] (players s !! uid).

(** The loop of [advance_turn] that skips seats with a value over 21. *)
Equations? skip_busted (s : Session) : Session
  by wf (length (order s) - turn_index s)%nat lt :=
skip_busted s with inspect (order s !! turn_index s) := {
  | exist _ (Some uid) Hu with inspect (21 <? value_of (hand_of uid s)) := {
      | exist _ true _ := skip_busted (set_turn_index (S (turn_index s)) s)
      | exist _ false _ := s }
  | exist _ None _ := s }.
Proof. apply lookup_lt_Some in Hu. simpl. lia. Qed.

(** The body of the loop of [settle_all] for one [(uid, hand)] item, with
    [dv, dbj = hand_value(self.dealer)] computed before the loop. *)
Definition settle_one (dv : Z) (dbj : bool)
    (uid : Z) (hand : list card) (acc : gmap Z outcome) : gmap Z outcome :=
  let '(pv, pbj) := hand_value hand in
  let r :=
    if 21 <? pv then Lose
    else if 21 <? dv then Win
    else if pbj && negb dbj then Win
    else if dbj && negb pbj then Lose
    else if dv <? pv then Win
    else if pv <? dv then Lose
    else Push in
  <[uid := r]> acc.

(** [settle_all]: one pass over [self.players.items()]. *)
Definition settle_all : M Session unit := modify (fun s =>
  let '(dv, dbj) := hand_value (dealer s) in
  set_finished true
    (set_results (map_fold (settle_one dv dbj) (results s) (players s)) s)).

Lemma draw_ok s : exists c s',
  draw s = Ok c s' /\ dealer s' = dealer s /\ players s' = players s /\
  order s' = order s /\ turn_index s' = turn_index s /\ started s' = started s /\
  finished s' = finished s /\ results s' = results s /\
  guild_id s' = guild_id s /\ channel_id s' = channel_id s /\ host_id s' = host_id s.
Proof.
  unfold draw. destruct (deck s) as [|c0 d0] eqn:Hd.
  - unfold reshuffle.
    destruct (Random.shuffle (make_deck ++ make_deck) (rng s)) as [d g] eqn:Hs.
    simpl. destruct (list_pop d) as [[c rest]|] eqn:Hp.
    + exists c; eexists; repeat split.
    + apply list_pop_None in Hp. subst d.
      pose proof (shuffle_length (make_deck ++ make_deck) (rng s)) as Hl.
      rewrite Hs in Hl. discriminate Hl.
  - rewrite Hd. destruct (list_pop (c0 :: d0)) as [[c rest]|] eqn:Hp.
    + exists c; eexists; repeat split.
    + apply list_pop_None in Hp. discriminate.
Qed.

(** [self.dealer.append(self.draw())]. *)
Definition dealer_hit : M Session unit :=
  (c <- draw ;; modify (fun s => set_dealer (dealer s ++ [c]) s))%py.

Lemma dealer_hit_ok s : exists c s',
  dealer_hit s = Ok tt s' /\ dealer s' = dealer s ++ [c] /\ players s' = players s /\
  order s' = order s /\ turn_index s' = turn_index s /\ started s' = started s /\
  finished s' = finished s /\ results s' = results s /\
  guild_id s' = guild_id s /\ channel_id s' = channel_id s /\ host_id s' = host_id s.
Proof.
  destruct (draw_ok s) as (c & s1 & Hd & Hde & H).
  exists c. eexists. unfold dealer_hit, bind, modify. rewrite Hd.
  split; [reflexivity|]. simpl. rewrite Hde. split; [reflexivity|exact H].
Qed.

(** [dealer_play] of the table, the same loop as the solo session's. *)
Equations? dealer_play (s : Session) : res Session unit
  by wf (Z.to_nat (17 - hard_total (dealer s))) lt :=
dealer_play s with inspect (value_of (dealer s) <? 17) := {
  | exist _ true Hlow with inspect (dealer_hit s) := {
      | exist _ (Ok _ s') Hhit := dealer_play s'
      | exist _ (Raise e s') _ := Raise e s' }
  | exist _ false _ := Ok tt s }.
Proof.
  destruct (dealer_hit_ok s) as (c & s2 & Hh & Hd & _).
  rewrite Hh in Hhit. inversion Hhit; subst s'.
  rewrite Hd, hard_total_snoc.
  pose proof (hard_value_pos (fst c)).
  pose proof (hard_le_value (dealer s)).
  apply Z.ltb_lt in Hlow. lia.
Qed.

(** [advance_turn]. *)
Definition advance_turn : M Session unit := fun s =>
  if negb (started s) || finished s then Ok tt s
  else
    let s1 := skip_busted (set_turn_index (S (turn_index s)) s) in
    if (length (order s1) <=? turn_index s1)%nat
    then (dealer_play ;;; settle_all)%py s1
    else Ok tt s1.

(** [player_hit(user_id)].  [self.players[user_id]] is looked up before
    [self.draw()] runs and raises [KeyError] when the key is missing. *)
Definition player_hit (uid : Z) : M Session unit := fun s =>
  if finished s || negb (started s) then Ok tt s
  else if decide (current_player_id s <> Some uid) then Ok tt s
  else match players s !! uid with
       | None => Raise KeyError s
       | Some hand =>
           (c <- draw ;;
            modify (fun s => set_players (<[uid := hand ++ [c]]> (players s)) s) ;;;
            p <- gets players ;;
            match p !! uid with
            | None => raise KeyError
            | Some hand' =>
                if 21 <? value_of hand' then advance_turn else ret tt
            end)%py s
       end.

Definition player_stand (uid : Z) : M Session unit := fun s =>
  if finished s || negb (started s) then Ok tt s
  else if decide (current_player_id s <> Some uid) then Ok tt s
  else advance_turn s.

Definition player_double (uid : Z) : M Session unit := fun s =>
  if finished s || negb (started s) then Ok tt s
  else if decide (current_player_id s <> Some uid) then Ok tt s
  else match players s !! uid with
       | None => Raise KeyError s
       | Some hand =>
           (c <- draw ;;
            modify (fun s => set_players (<[uid := hand ++ [c]]> (players s)) s) ;;;
            p <- gets players ;;
            match p !! uid with
            | None => raise KeyError
            | Some _ => advance_turn
            end)%py s
       end.

(** *** Lemmas on the loops of the table session *)

Lemma set_turn_index_same s : set_turn_index (turn_index s) s = s.
Proof. destruct s; reflexivity. Qed.

Lemma skip_busted_step s :
  skip_busted s =
  match order s !! turn_index s with
  | Some uid =>
      if 21 <? value_of (hand_of uid s)
      then skip_busted (set_turn_index (S (turn_index s)) s)
      else s
  | None => s
  end.
Proof.
  rewrite skip_busted_equation_1. unfold inspect. simpl.
  destruct (order s !! turn_index s) as [uid|]; [|reflexivity].
  simpl. destruct (21 <? value_of (hand_of uid s)); reflexivity.
Qed.

(** The skip loop only moves the cursor: it stops at the first seat from
    the cursor on whose value is at most 21, or past the last seat. *)
Lemma skip_busted_spec s : exists j,
  skip_busted s = set_turn_index j s /\
  (turn_index s <= j)%nat /\
  (forall k, (turn_index s <= k < j)%nat ->
     exists uid, order s !! k = Some uid /\ 21 < value_of (hand_of uid s)) /\
  (forall uid, order s !! j = Some uid -> value_of (hand_of uid s) <= 21).
Proof.
  remember (length (order s) - turn_index s)%nat as n eqn:Hn.
  revert s Hn. induction n as [n IH] using lt_wf_ind. intros s Hn.
  rewrite skip_busted_step.
  destruct (order s !! turn_index s) as [uid|] eqn:Hu.
  - destruct (21 <? value_of (hand_of uid s)) eqn:Hb.
    + apply Z.ltb_lt in Hb. pose proof (lookup_lt_Some _ _ _ Hu) as Hlt.
      set (s1 := set_turn_index (S (turn_index s)) s).
      assert (Hm : (length (order s1) - turn_index s1 < n)%nat) by (simpl; lia).
      destruct (IH _ Hm s1 eq_refl) as (j & Hj & Hle & Hskip & Hstop).
      exists j. simpl in *. split; [rewrite Hj; reflexivity|].
      split; [lia|]. split; [|exact Hstop].
      intros k Hk. destruct (decide (k = turn_index s)) as [->|Hne].
      * exists uid. split; assumption.
      * apply Hskip. lia.
    + apply Z.ltb_ge in Hb. exists (turn_index s).
      rewrite set_turn_index_same. split; [reflexivity|]. split; [lia|].
      split; [intros k Hk; lia|].
      intros uid' Hu'. rewrite Hu in Hu'. inversion Hu'; subst. exact Hb.
  - exists (turn_index s). rewrite set_turn_index_same.
    split; [reflexivity|]. split; [lia|]. split; [intros k Hk; lia|].
    intros uid' Hu'. rewrite Hu in Hu'. discriminate.
Qed.

Lemma dealer_play_step s :
  dealer_play s =
  if value_of (dealer s) <? 17
  then bind dealer_hit (fun _ => dealer_play) s
  else Ok tt s.
Proof.
  rewrite dealer_play_equation_1. unfold bind, inspect. simpl.
  destruct (value_of (dealer s) <? 17); [|reflexivity].
  destruct (dealer_hit s); reflexivity.
Qed.

Lemma dealer_play_spec s : exists drawn s',
  dealer_play s = Ok tt s' /\
  dealer s' = dealer s ++ drawn /\
  17 <= value_of (dealer s') /\
  (forall k, (k < length drawn)%nat -> value_of (dealer s ++ take k drawn) < 17) /\
  players s' = players s /\ order s' = order s /\ turn_index s' = turn_index s /\
  started s' = started s /\ finished s' = finished s /\ results s' = results s /\
  guild_id s' = guild_id s /\ channel_id s' = channel_id s /\ host_id s' = host_id s.
Proof.
  remember (Z.to_nat (17 - hard_total (dealer s))) as n eqn:Hn.
  revert s Hn. induction n as [n IH] using lt_wf_ind. intros s Hn.
  rewrite dealer_play_step.
  destruct (value_of (dealer s) <? 17) eqn:Hlow.
  - apply Z.ltb_lt in Hlow.
    destruct (dealer_hit_ok s) as (c & s1 & Hh & Hd & Hrest).
    unfold bind. rewrite Hh.
    assert (Hm : (Z.to_nat (17 - hard_total (dealer s1)) < n)%nat).
    { rewrite Hd, hard_total_snoc.
      pose proof (hard_value_pos (fst c)). pose proof (hard_le_value (dealer s)). lia. }
    destruct (IH _ Hm s1 eq_refl) as (drawn & s' & Hdp & Hd' & Hv & Hk & Hrest').
    exists (c :: drawn), s'. rewrite Hdp. split; [reflexivity|].
    split; [rewrite Hd', Hd, <- app_assoc; reflexivity|].
    split; [assumption|].
    split.
    + intros [|k] Hlt; simpl.
      * rewrite app_nil_r. assumption.
      * specialize (Hk k ltac:(simpl in Hlt; lia)).
        rewrite Hd, <- app_assoc in Hk. exact Hk.
    + destruct Hrest as (?&?&?&?&?&?&?&?&?).
      destruct Hrest' as (?&?&?&?&?&?&?&?&?).
      repeat split; congruence.
  - apply Z.ltb_ge in Hlow. exists [], s. rewrite app_nil_r.
    repeat split; try assumption. intros k Hk; simpl in Hk; lia.
Qed.

(** After the pass of [settle_all], every key of the hand map carries the
    entry its own item wrote; other keys keep their entry. *)
Lemma settle_fold_lookup dv dbj (r0 : gmap Z outcome) (m : gmap Z (list card)) uid :
  map_fold (settle_one dv dbj) r0 m !! uid =
  match m !! uid with
  | Some hand => settle_one dv dbj uid hand ∅ !! uid
  | None => r0 !! uid
  end.
Proof.
  revert uid.
  apply (map_fold_weak_ind
           (fun (r : gmap Z outcome) (m : gmap Z (list card)) =>
              forall uid, r !! uid = match m !! uid with
                                     | Some hand => settle_one dv dbj uid hand ∅ !! uid
                                     | None => r0 !! uid
                                     end)).
  - intros uid. rewrite lookup_empty. reflexivity.
  - intros i x m' r Hi IH uid. unfold settle_one at 1.
    destruct (hand_value x) as [pv pbj] eqn:Hx.
    destruct (decide (i = uid)) as [->|Hne].
    + rewrite !lookup_insert_eq. unfold settle_one. rewrite Hx.
      rewrite lookup_insert_eq. reflexivity.
    + rewrite !lookup_insert_ne by assumption. apply IH.
Qed.

Lemma settle_all_ok s : exists r,
  settle_all s = Ok tt (set_finished true (set_results r s)) /\
  forall uid, r !! uid =
    match players s !! uid with
    | Some hand =>
        settle_one (fst (hand_value (dealer s))) (snd (hand_value (dealer s))) uid hand ∅ !! uid
    | None => results s !! uid
    end.
Proof.
  unfold settle_all, modify.
  destruct (hand_value (dealer s)) as [dv dbj]. simpl.
  eexists. split; [reflexivity|]. intros uid. apply settle_fold_lookup.
Qed.

(** [advance_turn] on an active session: the cursor moves to the first
    seat after the current one whose value is at most 21; when there is
    none, the dealer plays and the table is settled. *)
Lemma advance_turn_spec s :
  started s = true -> finished s = false ->
  exists j s',
    advance_turn s = Ok tt s' /\
    (turn_index s < j)%nat /\
    (forall k, (turn_index s < k < j)%nat ->
       exists uid, order s !! k = Some uid /\ 21 < value_of (hand_of uid s)) /\
    (forall uid, order s !! j = Some uid ->
       value_of (hand_of uid s) <= 21 /\ s' = set_turn_index j s) /\
    (order s !! j = None ->
       exists s1, dealer_play (set_turn_index j s) = Ok tt s1 /\
                  settle_all s1 = Ok tt s' /\
                  17 <= value_of (dealer s') /\
                  finished s' = true /\ started s' = true /\
                  turn_index s' = j /\ order s' = order s /\ players s' = players s).
Proof.
  intros Hst Hfin. unfold advance_turn. rewrite Hst, Hfin. simpl.
  set (s0 := set_turn_index (S (turn_index s)) s).
  destruct (skip_busted_spec s0) as (j & Hj & Hle & Hskip & Hstop).
  rewrite Hj. simpl in Hle, Hskip, Hstop. simpl.
  destruct (Nat.leb_spec (length (order s)) j) as [Hpast|Hin].
  - destruct (dealer_play_spec (set_turn_index j s0))
      as (drawn & s1 & Hdp & Hd & Hv & _ & Hp & Ho & Hti & Hs & Hf & _).
    destruct (settle_all_ok s1) as (r & Hsa & _).
    exists j. eexists. unfold bind. rewrite Hdp, Hsa.
    split; [reflexivity|]. split; [lia|]. split.
    { intros k Hk. apply Hskip. lia. }
    split.
    { intros uid Hu. apply lookup_lt_Some in Hu. lia. }
    intros _. exists s1. split; [exact Hdp|]. split; [exact Hsa|].
    simpl. simpl in Hp, Ho, Hti, Hs. repeat split; congruence.
  - exists j. eexists. split; [reflexivity|]. split; [lia|]. split.
    { intros k Hk. apply Hskip. lia. }
    split.
    { intros uid Hu. split; [apply (Hstop uid Hu)|reflexivity]. }
    intros Hnone. apply lookup_ge_None in Hnone. lia.
Qed.

Lemma advance_turn_idle s :
  negb (started s) || finished s = true -> advance_turn s = Ok tt s.
Proof. intros H. unfold advance_turn. rewrite H. reflexivity. Qed.

(** *** The operations as a transition system *)

Inductive op : Type :=
| AddPlayer (uid : Z)
| RemovePlayer (uid : Z)
| Start
| Hit (uid : Z)
| Stand (uid : Z)
| Double (uid : Z)
| AdvanceTurn.

(** The session after a call, also when the call raised. *)
Definition run (o : op) (s : Session) : Session :=
  match o with
  | AddPlayer uid => state_of (add_player uid s)
  | RemovePlayer uid => state_of (remove_player uid s)
  | Start => state_of (start s)
  | Hit uid => state_of (player_hit uid s)
  | Stand uid => state_of (player_stand uid s)
  | Double uid => state_of (player_double uid s)
  | AdvanceTurn => state_of (advance_turn s)
  end.

Inductive reachable : Session -> Prop :=
| reach_init gid cid hid g : reachable (init gid cid hid g)
| reach_step o s : reachable s -> reachable (run o s).

(** The seat list has no repeats and lists exactly the keys of the hand map. *)
Definition seats_ok (s : Session) : Prop :=
  NoDup (order s) /\ forall uid, uid ∈ order s <-> is_Some (players s !! uid).

(** While the session is active the cursor is on a seat with a hand of
    value at most 21. *)
Definition cursor_ok (s : Session) : Prop :=
  started s = true -> finished s = false ->
  exists uid hand,
    order s !! turn_index s = Some uid /\
    players s !! uid = Some hand /\
    value_of hand <= 21.

Lemma two_card_value c1 c2 : value_of [c1; c2] <= 21.
Proof.
  destruct c1 as [r1 s1], c2 as [r2 s2].
  destruct r1, r2; vm_compute; discriminate.
Qed.

Lemma init_inv gid cid hid g :
  seats_ok (init gid cid hid g) /\ cursor_ok (init gid cid hid g).
Proof.
  unfold init, reshuffle. cbn [rng].
  destruct (Random.shuffle (make_deck ++ make_deck) g) as [d g'].
  split; [split|].
  - simpl. constructor.
  - intros uid. simpl. rewrite lookup_empty. split.
    + intros H. inversion H.
    + intros [x Hx]. discriminate.
  - intros Hs. discriminate Hs.
Qed.

Lemma list_remove_first_NoDup uid l :
  NoDup l -> NoDup (list_remove_first uid l) /\
  forall x, x ∈ list_remove_first uid l <-> x ∈ l /\ x <> uid.
Proof.
  induction l as [|y l IH]; intros Hnd; simpl.
  - split; [constructor|]. intros x. split; [intros H; inversion H|intros [H _]; inversion H].
  - apply NoDup_cons in Hnd as [Hy Hnd].
    destruct (decide (y = uid)) as [->|Hne].
    + split; [assumption|]. intros x. rewrite elem_of_cons. split.
      * intros Hx. split; [right; assumption|]. intros ->. contradiction.
      * intros [[->|Hx] Hneq]; [contradiction|assumption].
    + destruct (IH Hnd) as [IH1 IH2]. split.
      * apply NoDup_cons. split; [|assumption]. rewrite IH2. tauto.
      * intros x. rewrite !elem_of_cons, IH2. split.
        -- intros [->|[Hx Hneq]]; [split; [left; reflexivity|assumption]|tauto].
        -- intros [[->|Hx] Hneq]; [left; reflexivity|right; tauto].
Qed.

Lemma add_player_inv uid s :
  seats_ok s -> cursor_ok s ->
  seats_ok (state_of (add_player uid s)) /\ cursor_ok (state_of (add_player uid s)).
Proof.
  intros [Hnd Hdom] Hc. unfold add_player.
  destruct (started s || finished s) eqn:Hsf; [split; [split|]; assumption|].
  destruct (decide (is_Some (players s !! uid))) as [Hin|Hout];
    [split; [split|]; assumption|].
  apply orb_false_elim in Hsf as [Hs Hf]. simpl. split; [split|].
  - simpl. apply NoDup_app. split; [assumption|]. split; [|apply NoDup_singleton].
    intros x Hx Hx'. apply list_elem_of_singleton in Hx'. subst x.
    apply Hout, Hdom, Hx.
  - intros x. simpl. rewrite elem_of_app, list_elem_of_singleton, Hdom.
    destruct (decide (uid = x)) as [->|Hne].
    + rewrite lookup_insert_eq. split; [eauto|intros _; right; reflexivity].
    + rewrite lookup_insert_ne by assumption. split; [|tauto].
      intros [H| ->]; [assumption|contradiction].
  - intros Hs'. simpl in Hs'. congruence.
Qed.

Lemma remove_player_inv uid s :
  seats_ok s -> cursor_ok s ->
  seats_ok (state_of (remove_player uid s)) /\
  cursor_ok (state_of (remove_player uid s)).
Proof.
  intros [Hnd Hdom] Hc. unfold remove_player.
  destruct (started s || finished s) eqn:Hsf; [split; [split|]; assumption|].
  destruct (decide (is_Some (players s !! uid))) as [Hin|Hout];
    [|split; [split|]; assumption].
  apply orb_false_elim in Hsf as [Hs Hf]. simpl.
  destruct (list_remove_first_NoDup uid (order s) Hnd) as [Hnd' Hel].
  split; [split|].
  - simpl. assumption.
  - intros x. simpl. rewrite Hel, Hdom.
    destruct (decide (uid = x)) as [->|Hne].
    + rewrite lookup_delete_eq. split; [tauto|]. intros [y Hy]. discriminate.
    + rewrite lookup_delete_ne by assumption. split; [tauto|]. intros H. split; [assumption|congruence].
  - intros Hs'. simpl in Hs'. congruence.
Qed.

(** Fields that a call leaves alone. *)
Definition same_seating (s s' : Session) : Prop :=
  order s' = order s /\ turn_index s' = turn_index s /\
  started s' = started s /\ finished s' = finished s.

Lemma draw_seating s : exists c s',
  draw s = Ok c s' /\ players s' = players s /\ dealer s' = dealer s /\
  same_seating s s'.
Proof.
  destruct (draw_ok s) as (c & s' & Hd & Hde & Hp & Ho & Hti & Hs & Hf & _).
  exists c, s'. unfold same_seating. tauto.
Qed.

Lemma deal_ok uids : forall s, exists s',
  deal uids s = Ok tt s' /\ same_seating s s' /\
  forall uid,
    (uid ∈ uids -> exists c1 c2, players s' !! uid = Some [c1; c2]) /\
    (uid ∉ uids -> players s' !! uid = players s !! uid).
Proof.
  induction uids as [|u uids IH]; intros s; simpl deal.
  - exists s. split; [reflexivity|]. split; [unfold same_seating; tauto|].
    intros uid. split; [intros H; inversion H|reflexivity].
  - destruct (draw_seating s) as (c1 & s1 & Hd1 & Hp1 & _ & Ho1 & Ht1 & Hs1 & Hf1).
    destruct (draw_seating s1) as (c2 & s2 & Hd2 & Hp2 & _ & Ho2 & Ht2 & Hs2 & Hf2).
    set (s3 := set_players (<[u := [c1; c2]]> (players s2)) s2).
    destruct (IH s3) as (s' & Hdeal & (Ho & Ht & Hs & Hf) & Hpl).
    exists s'. unfold bind, modify. rewrite Hd1, Hd2. fold s3. rewrite Hdeal.
    split; [reflexivity|]. simpl in Ho, Ht, Hs, Hf.
    split; [unfold same_seating; repeat split; congruence|].
    intros uid. destruct (Hpl uid) as [Hin Hout]. split.
    + intros Hu. destruct (decide (uid ∈ uids)) as [Hi|Hni]; [apply Hin, Hi|].
      apply elem_of_cons in Hu as [->|Hu]; [|contradiction].
      exists c1, c2. rewrite (Hout Hni). simpl. apply lookup_insert_eq.
    + intros Hu. apply not_elem_of_cons in Hu as [Hne Hni].
      rewrite (Hout Hni). simpl. rewrite lookup_insert_ne by congruence. congruence.
Qed.

(** [start] on a lobby with a seat: it returns [True] with the session
    started, the cursor on seat 0 and two cards in every seated hand. *)
Lemma start_ok s :
  started s = false -> finished s = false -> order s <> [] ->
  exists s',
    start s = Ok true s' /\ started s' = true /\ finished s' = false /\
    turn_index s' = 0%nat /\ order s' = order s /\
    length (dealer s') = 2%nat /\
    forall uid,
      (uid ∈ order s -> exists c1 c2, players s' !! uid = Some [c1; c2]) /\
      (uid ∉ order s -> players s' !! uid = players s !! uid).
Proof.
  intros Hs Hf Ho. unfold start. rewrite Hs, Hf. simpl.
  destruct (order s) as [|u0 us] eqn:Hord; [contradiction|].
  unfold bind, modify, gets, ret.
  destruct (draw_ok (set_started true s))
    as (c1 & s1 & Hd1 & _ & Hp1 & Ho1 & _ & Hs1 & Hf1 & _).
  destruct (draw_ok s1) as (c2 & s2 & Hd2 & _ & Hp2 & Ho2 & _ & Hs2 & Hf2 & _).
  rewrite Hd1, Hd2.
  set (s3 := set_dealer [c1; c2] s2).
  destruct (deal_ok (order s3) s3) as (s4 & Hdeal & (Ho4 & _ & Hs4 & Hf4) & Hpl).
  rewrite Hdeal. eexists. split; [reflexivity|].
  simpl in *. split; [congruence|]. split; [congruence|]. split; [reflexivity|].
  split; [congruence|].
  assert (Hd4 : dealer s4 = [c1; c2]).
  { clear - Hdeal. revert Hdeal. generalize (order s2). intros l.
    change [c1; c2] with (dealer s3). generalize s3. clear.
    induction l as [|u l IH]; intros s Hd; simpl in Hd.
    - unfold ret in Hd. congruence.
    - unfold bind, modify in Hd.
      destruct (draw_seating s) as (a & t1 & Ha & _ & Hda & _).
      destruct (draw_seating t1) as (b & t2 & Hb & _ & Hdb & _).
      rewrite Ha, Hb in Hd. apply IH in Hd. simpl in Hd. congruence. }
  split; [rewrite Hd4; reflexivity|].
  intros uid. destruct (Hpl uid) as [Hin Hout].
  rewrite Ho2, Ho1 in Hin, Hout. simpl in Hin, Hout. rewrite Hord in Hin, Hout.
  split; [exact Hin|]. intros Hn. rewrite (Hout Hn). congruence.
Qed.

Lemma start_inv s :
  seats_ok s -> cursor_ok s ->
  seats_ok (state_of (start s)) /\ cursor_ok (state_of (start s)).
Proof.
  intros Hseats Hc.
  destruct (started s || finished s) eqn:Hsf.
  { unfold start. rewrite Hsf. split; assumption. }
  destruct (order s) as [|u0 us] eqn:Hord.
  { unfold start. rewrite Hsf, Hord. split; assumption. }
  destruct Hseats as [Hnd Hdom].
  apply orb_false_elim in Hsf as [Hs Hf].
  destruct (start_ok s Hs Hf) as (s' & Hst & Hs' & Hf' & Ht' & Ho' & _ & Hpl).
  { rewrite Hord. discriminate. }
  rewrite Hst. simpl. split; [split|].
  - rewrite Ho'. assumption.
  - intros uid. rewrite Ho'. destruct (Hpl uid) as [Hin Hout]. split.
    + intros Hu. destruct (Hin Hu) as (c1 & c2 & H). rewrite H. eauto.
    + intros Hsome. destruct (decide (uid ∈ order s)) as [Hi|Hni]; [assumption|].
      rewrite (Hout Hni) in Hsome. apply Hdom, Hsome.
  - intros _ _. rewrite Ho', Ht', Hord. exists u0.
    destruct (Hpl u0) as [Hin _].
    destruct Hin as (c1 & c2 & H); [rewrite Hord; left|].
    exists [c1; c2]. split; [reflexivity|]. split; [assumption|apply two_card_value].
Qed.

Lemma advance_turn_inv s :
  seats_ok s -> started s = true -> finished s = false ->
  exists s', advance_turn s = Ok tt s' /\ seats_ok s' /\ cursor_ok s'.
Proof.
  intros [Hnd Hdom] Hs Hf.
  destruct (advance_turn_spec s Hs Hf) as (j & s' & Hadv & Hlt & Hskip & Hin & Hout).
  exists s'. split; [exact Hadv|].
  destruct (order s !! j) as [uid|] eqn:Hj.
  - destruct (Hin uid eq_refl) as [Hv ->]. split; [split; assumption|].
    intros _ _. simpl. rewrite Hj.
    assert (Hsome : is_Some (players s !! uid)).
    { apply Hdom. eapply list_elem_of_lookup_2, Hj. }
    destruct Hsome as [hand Hh]. exists uid, hand.
    unfold hand_of in Hv. rewrite Hh in Hv. tauto.
  - destruct (Hout eq_refl) as (s1 & _ & _ & _ & Hfin & _ & _ & Ho & Hp).
    split; [split|].
    + rewrite Ho. assumption.
    + intros uid. rewrite Ho, Hp. apply Hdom.
    + intros _ Hnf. congruence.
Qed.

Lemma current_player_active s uid :
  current_player_id s = Some uid ->
  started s = true /\ finished s = false /\ order s !! turn_index s = Some uid.
Proof.
  unfold current_player_id.
  destruct (started s), (finished s); simpl; try discriminate. tauto.
Qed.

(** [player_hit] and [player_double] by the current actor: one card is
    drawn into the actor's hand, then the turn advances on a bust (hit) or
    in every case (double). *)
Lemma player_hit_actor s uid hand :
  current_player_id s = Some uid -> players s !! uid = Some hand ->
  exists c s1, draw s = Ok c s1 /\
    player_hit uid s =
      let s2 := set_players (<[uid := hand ++ [c]]> (players s)) s1 in
      if 21 <? value_of (hand ++ [c]) then advance_turn s2 else Ok tt s2.
Proof.
  intros Hcur Hh. destruct (current_player_active s uid Hcur) as (Hs & Hf & _).
  destruct (draw_seating s) as (c & s1 & Hd & Hp & _).
  exists c, s1. split; [exact Hd|].
  unfold player_hit. rewrite Hs, Hf. simpl.
  destruct (decide (current_player_id s <> Some uid)) as [Hne|_]; [contradiction|].
  rewrite Hh. unfold bind, modify, gets, ret. rewrite Hd. simpl.
  rewrite Hp, lookup_insert_eq.
  destruct (21 <? value_of (hand ++ [c])); reflexivity.
Qed.

Lemma player_double_actor s uid hand :
  current_player_id s = Some uid -> players s !! uid = Some hand ->
  exists c s1, draw s = Ok c s1 /\
    player_double uid s =
      advance_turn (set_players (<[uid := hand ++ [c]]> (players s)) s1).
Proof.
  intros Hcur Hh. destruct (current_player_active s uid Hcur) as (Hs & Hf & _).
  destruct (draw_seating s) as (c & s1 & Hd & Hp & _).
  exists c, s1. split; [exact Hd|].
  unfold player_double. rewrite Hs, Hf. simpl.
  destruct (decide (current_player_id s <> Some uid)) as [Hne|_]; [contradiction|].
  rewrite Hh. unfold bind, modify, gets, ret. rewrite Hd. simpl.
  rewrite Hp, lookup_insert_eq. reflexivity.
Qed.

(** A call by anyone but the current actor, or on a session that is not
    active, returns at once. *)
Lemma not_actor_noop s uid :
  current_player_id s <> Some uid ->
  player_hit uid s = Ok tt s /\ player_stand uid s = Ok tt s /\
  player_double uid s = Ok tt s.
Proof.
  intros Hne. unfold player_hit, player_stand, player_double.
  destruct (finished s || negb (started s)); [tauto|].
  destruct (decide (current_player_id s <> Some uid)); [tauto|contradiction].
Qed.

Lemma seats_ok_insert s s1 uid hand hand' :
  seats_ok s -> players s !! uid = Some hand ->
  order s1 = order s ->
  seats_ok (set_players (<[uid := hand']> (players s)) s1).
Proof.
  intros [Hnd Hdom] Hh Ho. split; simpl; rewrite Ho; [assumption|].
  intros x. rewrite Hdom. destruct (decide (uid = x)) as [->|Hne].
  - rewrite lookup_insert_eq, Hh. split; eauto.
  - rewrite lookup_insert_ne by assumption. reflexivity.
Qed.

Lemma player_hit_inv uid s :
  seats_ok s -> cursor_ok s ->
  seats_ok (state_of (player_hit uid s)) /\ cursor_ok (state_of (player_hit uid s)).
Proof.
  intros Hseats Hc.
  destruct (decide (current_player_id s = Some uid)) as [Hcur|Hne].
  2:{ destruct (not_actor_noop s uid Hne) as (-> & _). split; assumption. }
  destruct (current_player_active s uid Hcur) as (Hs & Hf & Hu).
  destruct (Hc Hs Hf) as (uid' & hand & Hu' & Hh & Hv).
  assert (uid' = uid) by congruence. subst uid'.
  destruct (player_hit_actor s uid hand Hcur Hh) as (c & s1 & Hd & ->).
  destruct (draw_seating s) as (c' & s1' & Hd' & Hp & _ & Ho & Hti & Hs1 & Hf1).
  rewrite Hd in Hd'. inversion Hd'; subst c' s1'. cbv zeta.
  pose proof (seats_ok_insert s s1 uid hand (hand ++ [c]) Hseats Hh Ho) as Hseats2.
  destruct (21 <? value_of (hand ++ [c])) eqn:Hb.
  - destruct (advance_turn_inv _ Hseats2) as (s' & -> & H1 & H2); simpl; try congruence.
    split; assumption.
  - simpl. split; [assumption|]. intros _ _. exists uid, (hand ++ [c]). simpl.
    rewrite Ho, Hti, lookup_insert_eq. apply Z.ltb_ge in Hb. tauto.
Qed.

Lemma player_stand_inv uid s :
  seats_ok s -> cursor_ok s ->
  seats_ok (state_of (player_stand uid s)) /\
  cursor_ok (state_of (player_stand uid s)).
Proof.
  intros Hseats Hc.
  destruct (decide (current_player_id s = Some uid)) as [Hcur|Hne].
  2:{ destruct (not_actor_noop s uid Hne) as (_ & -> & _). split; assumption. }
  destruct (current_player_active s uid Hcur) as (Hs & Hf & Hu).
  unfold player_stand. rewrite Hs, Hf. simpl.
  destruct (decide (current_player_id s <> Some uid)) as [Hne|_]; [contradiction|].
  destruct (advance_turn_inv s Hseats Hs Hf) as (s' & -> & H1 & H2). split; assumption.
Qed.

Lemma player_double_inv uid s :
  seats_ok s -> cursor_ok s ->
  seats_ok (state_of (player_double uid s)) /\
  cursor_ok (state_of (player_double uid s)).
Proof.
  intros Hseats Hc.
  destruct (decide (current_player_id s = Some uid)) as [Hcur|Hne].
  2:{ destruct (not_actor_noop s uid Hne) as (_ & _ & ->). split; assumption. }
  destruct (current_player_active s uid Hcur) as (Hs & Hf & Hu).
  destruct (Hc Hs Hf) as (uid' & hand & Hu' & Hh & Hv).
  assert (uid' = uid) by congruence. subst uid'.
  destruct (player_double_actor s uid hand Hcur Hh) as (c & s1 & Hd & ->).
  destruct (draw_seating s) as (c' & s1' & Hd' & Hp & _ & Ho & Hti & Hs1 & Hf1).
  rewrite Hd in Hd'. inversion Hd'; subst c' s1'.
  pose proof (seats_ok_insert s s1 uid hand (hand ++ [c]) Hseats Hh Ho) as Hseats2.
  destruct (advance_turn_inv _ Hseats2) as (s' & -> & H1 & H2); simpl; try congruence.
  split; assumption.
Qed.

Lemma run_inv o s :
  seats_ok s -> cursor_ok s -> seats_ok (run o s) /\ cursor_ok (run o s).
Proof.
  intros Hseats Hc. destruct o as [uid|uid| |uid|uid|uid| ]; simpl.
  - apply add_player_inv; assumption.
  - apply remove_player_inv; assumption.
  - apply start_inv; assumption.
  - apply player_hit_inv; assumption.
  - apply player_stand_inv; assumption.
  - apply player_double_inv; assumption.
  - destruct (negb (started s) || finished s) eqn:Hidle.
    + rewrite (advance_turn_idle s Hidle). split; assumption.
    + apply orb_false_elim in Hidle as [Hs Hf]. apply negb_false_iff in Hs.
      destruct (advance_turn_inv s Hseats Hs Hf) as (s' & -> & H1 & H2).
      split; assumption.
Qed.

Lemma reachable_inv s : reachable s -> seats_ok s /\ cursor_ok s.
Proof.
  induction 1 as [gid cid hid g|o s Hr [IH1 IH2]].
  - apply init_inv.
  - apply run_inv; assumption.
Qed.

End Table.

(* ================================================================== *)
(** ** Decks in a chosen order

    [stacked top] is the two decks with the cards of [top] taken out and
    put where [draw] finds them first, in the order given.  For the lists
    used below it is a permutation of [make_deck() + make_deck()], hence a
    deck that [random.shuffle] can leave behind. *)

Fixpoint take_out (c : card) (l : list card) : list card :=
  match l with
  | [] => []
  | d :: l' => if decide (d = c) then l' else d :: take_out c l'
  end.

Definition stacked (top : list card) : list card :=
  fold_right take_out (make_deck ++ make_deck) top ++ rev top.

(** A new table whose shuffle left the deck [stacked top]. *)
Definition table_with_deck (top : list card) : Table.Session :=
  Table.mkSession 1 2 11 (stacked top) [] ∅ [] 0 false false ∅
    (Random.mkRng (fun _ => 0%nat) 0).

(** The cards of the spec's scenario: dealer 10+7, seat 11 gets 10+9 and
    then a 5, seat 12 gets 10+8, seat 13 gets 9+9. *)
Definition scenario_cards : list card :=
  [(Ten, Spades); (Seven, Hearts);
   (Ten, Hearts); (Nine, Spades);
   (Ten, Diamonds); (Eight, Spades);
   (Nine, Hearts); (Nine, Clubs);
   (Five, Spades)].

Definition play (ops : list Table.op) (s : Table.Session) : Table.Session :=
  fold_left (fun s o => Table.run o s) ops s.

(** What a caller sees of a table: cursor, flags, current actor, and per
    seat the value of the hand and the result. *)
Definition snapshot (s : Table.Session) :
    nat * bool * option Z * list (Z * Z * option outcome) :=
  (Table.turn_index s, Table.finished s, Table.current_player_id s,
   map (fun uid => (uid, value_of (Table.hand_of uid s), Table.results s !! uid))
       (Table.order s)).

(** The scenario of the spec, played through the methods: seat 11 hits
    10+9+5 and the turn goes to seat 12 without a stand; two stands later
    the table is settled against the dealer's 17. *)
Lemma three_seat_game :
  stacked scenario_cards ≡ₚ make_deck ++ make_deck /\
  let joined := play [Table.AddPlayer 11; Table.AddPlayer 12; Table.AddPlayer 13;
                      Table.Start] (table_with_deck scenario_cards) in
  snapshot joined = (0%nat, false, Some 11, [(11, 19, None); (12, 18, None); (13, 18, None)]) /\
  snapshot (play [Table.Hit 11] joined)
    = (1%nat, false, Some 12, [(11, 24, None); (12, 18, None); (13, 18, None)]) /\
  snapshot (play [Table.Hit 11; Table.Hit 11] joined)
    = (1%nat, false, Some 12, [(11, 24, None); (12, 18, None); (13, 18, None)]) /\
  snapshot (play [Table.Hit 11; Table.Stand 12] joined)
    = (2%nat, false, Some 13, [(11, 24, None); (12, 18, None); (13, 18, None)]) /\
  snapshot (play [Table.Hit 11; Table.Stand 12; Table.Stand 13] joined)
    = (3%nat, true, None, [(11, 24, Some Lose); (12, 18, Some Win); (13, 18, Some Win)]).
Proof.
  split; [apply (bool_decide_unpack _); vm_compute; reflexivity|].
  cbv zeta. repeat split; vm_compute; reflexivity.
Qed.

(* ================================================================== *)
(** * The claims *)

(** ** C1: the hand evaluator *)

(** The spec's words for the ace reduction: starting from the raw sum,
    ten is taken off [k] times, once per ace, each time while the running
    total still exceeded 21, and the reduction stops because the total is
    at most 21 or because no ace counted as eleven is left. *)
Definition spec_reduction (raw : Z) (aces : nat) (total : Z) : Prop :=
  exists k : nat,
    (k <= aces)%nat /\
    total = raw - 10 * Z.of_nat k /\
    (forall i : nat, (i < k)%nat -> 21 < raw - 10 * Z.of_nat i) /\
    (total <= 21 \/ k = aces).

Lemma soften_spec aces : forall total, spec_reduction total aces (soften total aces).
Proof.
  induction aces as [|a IH]; intros total; simpl soften.
  - exists 0%nat. repeat split; lia.
  - destruct (21 <? total) eqn:Hb.
    + apply Z.ltb_lt in Hb.
      destruct (IH (total - 10)) as (k & Hk & Ht & Hi & Hstop).
      exists (S k). split; [lia|]. split; [lia|]. split.
      * intros [|i] Hlt; [lia|]. specialize (Hi i ltac:(lia)). lia.
      * destruct Hstop; [left; assumption|right; lia].
    + apply Z.ltb_ge in Hb. exists 0%nat.
      split; [lia|]. split; [lia|]. split; [intros i Hi; lia|left; lia].
Qed.

(** C1. For every hand, [hand_value] returns as total the sum of the rank
    values (J, Q, K are 10, the ace 11, numeric ranks their number), less
    ten per ace while the total exceeds 21 and an ace counted as eleven
    remains; the blackjack flag is true exactly when the hand has two
    cards and that total is 21, so 7+7+7 is 21 without being blackjack. *)
Theorem C1_hand_value_spec (cards : list card) :
  map card_value RANKS = [11; 2; 3; 4; 5; 6; 7; 8; 9; 10; 10; 10; 10] /\
  spec_reduction (raw_total cards) (count_aces cards) (fst (hand_value cards)) /\
  (snd (hand_value cards) = true <->
     length cards = 2%nat /\ fst (hand_value cards) = 21) /\
  hand_value [(Seven, Spades); (Seven, Hearts); (Seven, Diamonds)] = (21, false).
Proof.
  split; [reflexivity|]. rewrite hand_value_unfold. simpl fst. simpl snd.
  split; [apply soften_spec|]. split; [|reflexivity].
  rewrite andb_true_iff, Nat.eqb_eq, Z.eqb_eq. reflexivity.
Qed.

(** ** C3: dealer auto-play *)

(** C3. In the solo and in the table session, [dealer_play] returns for
    every session state; the dealer hand grows by the cards drawn, every
    card was drawn on a hand valued below 17, the final hand is valued at
    least 17, and a hand that is already at 17 or more is left alone
    together with the rest of the session. *)
Theorem C3_dealer_play_halts_at_17 :
  (forall s : Solo.Session, exists drawn s',
     Solo.dealer_play s = Ok tt s' /\
     Solo.dealer s' = Solo.dealer s ++ drawn /\
     (forall k, (k < length drawn)%nat ->
        value_of (Solo.dealer s ++ take k drawn) < 17) /\
     17 <= value_of (Solo.dealer s') /\
     (length drawn <= 17)%nat /\
     (17 <= value_of (Solo.dealer s) -> s' = s)) /\
  (forall s : Table.Session, exists drawn s',
     Table.dealer_play s = Ok tt s' /\
     Table.dealer s' = Table.dealer s ++ drawn /\
     (forall k, (k < length drawn)%nat ->
        value_of (Table.dealer s ++ take k drawn) < 17) /\
     17 <= value_of (Table.dealer s') /\
     (length drawn <= 17)%nat /\
     (17 <= value_of (Table.dealer s) -> s' = s)).
Proof.
  assert (Hbound : forall (hand drawn : list card),
            (forall k, (k < length drawn)%nat -> value_of (hand ++ take k drawn) < 17) ->
            (length drawn <= 17)%nat).
  { intros hand drawn Hk. destruct drawn as [|c drawn] using rev_ind; [simpl; lia|].
    clear IHdrawn. rewrite length_app in *. simpl in *.
    specialize (Hk (length drawn) ltac:(lia)).
    rewrite take_app_length in Hk.
    pose proof (hard_le_value (hand ++ drawn)) as Hh.
    assert (Hlen : forall l : list card, Z.of_nat (length l) <= hard_total l).
    { induction l as [|d l IHl]; simpl hard_total; simpl length; [lia|].
      pose proof (hard_value_pos (fst d)). lia. }
    pose proof (Hlen (hand ++ drawn)) as Hl. rewrite length_app in Hl. lia. }
  split; intros s.
  - destruct (Solo.solo_dealer_play_spec s) as (drawn & s' & Hdp & Hd & Hv & Hk & _).
    exists drawn, s'. repeat split; try assumption.
    + eapply Hbound, Hk.
    + intros Hge. rewrite Solo.solo_dealer_play_step in Hdp.
      apply Z.ltb_ge in Hge. rewrite Hge in Hdp. congruence.
  - destruct (Table.dealer_play_spec s) as (drawn & s' & Hdp & Hd & Hv & Hk & _).
    exists drawn, s'. repeat split; try assumption.
    + eapply Hbound, Hk.
    + intros Hge. rewrite Table.dealer_play_step in Hdp.
      apply Z.ltb_ge in Hge. rewrite Hge in Hdp. congruence.
Qed.

(** ** C4: drawing from the shoe *)

Lemma card_in_make_deck (c : card) : In c make_deck.
Proof. destruct c as [[] []]; vm_compute; tauto. Qed.

(** C4. In both sessions [draw] returns a card for every state.  On an
    empty deck the deck is first replaced by a shuffle of the two decks
    (104 cards), the card returned is its last one and 103 cards stay; on
    a non-empty deck the last card is removed and returned. *)
Theorem C4_draw_never_fails :
  (forall s : Solo.Session, exists c s',
     Solo.draw s = Ok c s' /\ In c make_deck /\
     (Solo.deck s = [] ->
        Solo.deck s' ++ [c] ≡ₚ make_deck ++ make_deck /\
        length (Solo.deck s' ++ [c]) = 104%nat /\ Solo.deck s' <> []) /\
     (Solo.deck s <> [] ->
        Solo.deck s = Solo.deck s' ++ [c] /\ Solo.rng s' = Solo.rng s)) /\
  (forall s : Table.Session, exists c s',
     Table.draw s = Ok c s' /\ In c make_deck /\
     (Table.deck s = [] ->
        Table.deck s' ++ [c] ≡ₚ make_deck ++ make_deck /\
        length (Table.deck s' ++ [c]) = 104%nat /\ Table.deck s' <> []) /\
     (Table.deck s <> [] ->
        Table.deck s = Table.deck s' ++ [c] /\ Table.rng s' = Table.rng s)).
Proof.
  split; intros s.
  - unfold Solo.draw. destruct (Solo.deck s) as [|c0 d0] eqn:Hd.
    + unfold Solo.reshuffle.
      pose proof (shuffle_Permutation (make_deck ++ make_deck) (Solo.rng s)) as Hperm.
      destruct (Random.shuffle (make_deck ++ make_deck) (Solo.rng s)) as [d g].
      simpl in *. destruct (list_pop d) as [[c rest]|] eqn:Hp.
      * apply list_pop_Some in Hp. subst d. exists c; eexists.
        split; [reflexivity|]. split; [apply card_in_make_deck|].
        simpl. split; [|intros H; congruence]. intros _.
        split; [exact Hperm|].
        pose proof (Permutation_length Hperm) as Hl. split; [exact Hl|].
        intros ->. simpl in Hl. discriminate Hl.
      * apply list_pop_None in Hp. subst d.
        apply Permutation_length in Hperm. discriminate Hperm.
    + rewrite Hd. destruct (list_pop (c0 :: d0)) as [[c rest]|] eqn:Hp.
      * apply list_pop_Some in Hp. exists c; eexists.
        split; [reflexivity|]. split; [apply card_in_make_deck|].
        simpl. split; [intros H; discriminate|]. intros _.
        split; [exact Hp|reflexivity].
      * apply list_pop_None in Hp. discriminate.
  - unfold Table.draw. destruct (Table.deck s) as [|c0 d0] eqn:Hd.
    + unfold Table.reshuffle.
      pose proof (shuffle_Permutation (make_deck ++ make_deck) (Table.rng s)) as Hperm.
      destruct (Random.shuffle (make_deck ++ make_deck) (Table.rng s)) as [d g].
      simpl in *. destruct (list_pop d) as [[c rest]|] eqn:Hp.
      * apply list_pop_Some in Hp. subst d. exists c; eexists.
        split; [reflexivity|]. split; [apply card_in_make_deck|].
        simpl. split; [|intros H; congruence]. intros _.
        split; [exact Hperm|].
        pose proof (Permutation_length Hperm) as Hl. split; [exact Hl|].
        intros ->. simpl in Hl. discriminate Hl.
      * apply list_pop_None in Hp. subst d.
        apply Permutation_length in Hperm. discriminate Hperm.
    + rewrite Hd. destruct (list_pop (c0 :: d0)) as [[c rest]|] eqn:Hp.
      * apply list_pop_Some in Hp. exists c; eexists.
        split; [reflexivity|]. split; [apply card_in_make_deck|].
        simpl. split; [intros H; discriminate|]. intros _.
        split; [exact Hp|reflexivity].
      * apply list_pop_None in Hp. discriminate.
Qed.

(** ** C2: settlement *)

(** The spec's tie-break order as a decision table over the two evaluated
    hands [(pv, pbj)] and [(dv, dbj)]. *)
Definition spec_settlement (p d : Z * bool) (r : outcome) : Prop :=
  let '(pv, pbj) := p in
  let '(dv, dbj) := d in
  (21 < pv -> r = Lose) /\
  (pv <= 21 -> 21 < dv -> r = Win) /\
  (pv <= 21 -> dv <= 21 -> pbj = true -> dbj = false -> r = Win) /\
  (pv <= 21 -> dv <= 21 -> pbj = false -> dbj = true -> r = Lose) /\
  (pv <= 21 -> dv <= 21 -> pbj = dbj -> dv < pv -> r = Win) /\
  (pv <= 21 -> dv <= 21 -> pbj = dbj -> pv < dv -> r = Lose) /\
  (pv <= 21 -> dv <= 21 -> pbj = dbj -> pv = dv -> r = Push).

(** A solo session that holds the two given hands and nothing else of
    interest. *)
Definition solo_with (player dealer : list card) : Solo.Session :=
  Solo.mkSession 0 [] player dealer false None (Random.mkRng (fun _ => 0%nat) 0).

Lemma solo_settle_result s : exists r,
  Solo.settle s = Ok tt (Solo.set_finished true (Solo.set_result (Some r) s)) /\
  spec_settlement (hand_value (Solo.player s)) (hand_value (Solo.dealer s)) r.
Proof.
  unfold Solo.settle, modify, spec_settlement.
  destruct (hand_value (Solo.player s)) as [pv pbj].
  destruct (hand_value (Solo.dealer s)) as [dv dbj].
  eexists. split; [reflexivity|].
  destruct (Z.ltb_spec 21 pv); [repeat split; intros; first [reflexivity|lia]|].
  destruct (Z.ltb_spec 21 dv); [repeat split; intros; first [reflexivity|lia]|].
  destruct pbj, dbj; simpl;
    try (repeat split; intros; first [reflexivity|lia|discriminate]);
    destruct (Z.ltb_spec dv pv);
    try (repeat split; intros; first [reflexivity|lia|discriminate]);
    destruct (Z.ltb_spec pv dv);
    repeat split; intros; first [reflexivity|lia|discriminate].
Qed.

(** C2. [settle] writes the result of the tie-break order: player over 21
    loses (whatever the dealer holds), else dealer over 21 wins, else a
    blackjack on one side only decides, else the higher total wins and
    equal totals push; 20 against 20 is a push, a blackjack beats a
    three-card 21, two blackjacks push.  [settle_all] writes, for every
    key of the hand map, the result [settle] gives that hand against the
    dealer hand, marks the table finished and leaves other entries. *)
Theorem C2_settlement_order :
  (forall s : Solo.Session, exists r,
     Solo.settle s = Ok tt (Solo.set_finished true (Solo.set_result (Some r) s)) /\
     spec_settlement (hand_value (Solo.player s)) (hand_value (Solo.dealer s)) r) /\
  Solo.result (state_of (Solo.settle
    (solo_with [(King, Spades); (Queen, Hearts)] [(Ten, Diamonds); (Jack, Clubs)])))
    = Some Push /\
  Solo.result (state_of (Solo.settle
    (solo_with [(Ace, Spades); (King, Spades)]
               [(Seven, Spades); (Seven, Hearts); (Seven, Diamonds)])))
    = Some Win /\
  Solo.result (state_of (Solo.settle
    (solo_with [(Ace, Spades); (King, Spades)] [(Queen, Hearts); (Ace, Clubs)])))
    = Some Push /\
  (forall t : Table.Session, exists r,
     Table.settle_all t = Ok tt (Table.set_finished true (Table.set_results r t)) /\
     (forall uid hand, Table.players t !! uid = Some hand ->
        r !! uid = Solo.result (state_of (Solo.settle (solo_with hand (Table.dealer t))))) /\
     (forall uid, Table.players t !! uid = None -> r !! uid = Table.results t !! uid)).
Proof.
  split; [exact solo_settle_result|].
  split; [reflexivity|]. split; [reflexivity|]. split; [reflexivity|].
  intros t. destruct (Table.settle_all_ok t) as (r & Hr & Hlook).
  exists r. split; [exact Hr|]. split.
  - intros uid hand Hh. rewrite Hlook, Hh.
    unfold Table.settle_one, Solo.settle, modify, solo_with. simpl.
    destruct (hand_value hand) as [pv pbj].
    destruct (hand_value (Table.dealer t)) as [dv dbj]. simpl.
    apply lookup_insert_eq.
  - intros uid Hn. rewrite Hlook, Hn. reflexivity.
Qed.

(** ** C5: advancing the turn *)

(** A started table with three seats whose middle seat holds 10+9+5. *)
Definition three_seats : Table.Session :=
  Table.mkSession 1 2 11
    [(Two, Clubs)]
    [(Ten, Spades); (Seven, Hearts)]
    (<[11 := [(Ten, Diamonds); (Eight, Spades)]]>
       (<[12 := [(Ten, Hearts); (Nine, Spades); (Five, Spades)]]>
          (<[13 := [(Nine, Hearts); (Nine, Clubs)]]> ∅)))
    [11; 12; 13] 0 true false ∅ (Random.mkRng (fun _ => 0%nat) 0).

(** C5. On an active table [advance_turn] moves the cursor forward by at
    least one seat; every seat it passes over holds more than 21; it stops
    on the first later seat that does not, changing nothing but the
    cursor; when no such seat is left the dealer plays, [settle_all] runs
    and the session is finished.  With seats [a; b; c], the cursor on [a]
    and [b] over 21 but not [c], the cursor goes to [c] at once and the
    next advance settles the table. *)
Theorem C5_advance_turn_skips_bust (s : Table.Session) :
  Table.started s = true -> Table.finished s = false ->
  exists j s',
    Table.advance_turn s = Ok tt s' /\
    (Table.turn_index s < j)%nat /\
    (forall k, (Table.turn_index s < k < j)%nat ->
       exists uid, Table.order s !! k = Some uid /\
                   21 < value_of (Table.hand_of uid s)) /\
    (forall uid, Table.order s !! j = Some uid ->
       value_of (Table.hand_of uid s) <= 21 /\ s' = Table.set_turn_index j s) /\
    (Table.order s !! j = None ->
       Table.finished s' = true /\
       exists s1, Table.dealer_play (Table.set_turn_index j s) = Ok tt s1 /\
                  Table.settle_all s1 = Ok tt s' /\
                  17 <= value_of (Table.dealer s')) /\
    (forall a b c,
       Table.order s = [a; b; c] -> Table.turn_index s = 0%nat ->
       21 < value_of (Table.hand_of b s) -> value_of (Table.hand_of c s) <= 21 ->
       j = 2%nat /\ Table.current_player_id s' = Some c /\
       exists s'', Table.advance_turn s' = Ok tt s'' /\ Table.finished s'' = true).
Proof.
  intros Hs Hf.
  destruct (Table.advance_turn_spec s Hs Hf) as (j & s' & Hadv & Hlt & Hskip & Hin & Hout).
  exists j, s'. split; [exact Hadv|]. split; [exact Hlt|]. split; [exact Hskip|].
  split; [exact Hin|]. split.
  { intros Hn. destruct (Hout Hn) as (s1 & H1 & H2 & H3 & H4 & _).
    split; [exact H4|]. exists s1. tauto. }
  intros a b c Ho Hti Hb Hc. rewrite Ho, Hti in *.
  assert (Hj : j = 2%nat).
  { destruct j as [|[|[|j]]]; [lia| |reflexivity|].
    - destruct (Hin b eq_refl) as [Hle _]. lia.
    - destruct (Hskip 2%nat ltac:(lia)) as (uid & Hu & Hbust).
      inversion Hu; subst uid. lia. }
  subst j. split; [reflexivity|].
  destruct (Hin c eq_refl) as [_ ->].
  split.
  { unfold Table.current_player_id. simpl. rewrite Hs, Hf, Ho. reflexivity. }
  destruct (Table.advance_turn_spec (Table.set_turn_index 2 s) Hs Hf)
    as (j' & s'' & Hadv' & Hlt' & _ & _ & Hout').
  exists s''. split; [exact Hadv'|]. simpl in Hlt', Hout'.
  destruct Hout' as (s1 & _ & _ & _ & Hfin & _).
  { rewrite Ho. apply lookup_ge_None. simpl. lia. }
  exact Hfin.
Qed.

Lemma C5_three_seats_witness : exists s',
  Table.advance_turn three_seats = Ok tt s' /\
  Table.turn_index s' = 2%nat /\
  Table.current_player_id s' = Some 13 /\
  exists s'', Table.advance_turn s' = Ok tt s'' /\ Table.finished s'' = true.
Proof.
  destruct (C5_advance_turn_skips_bust three_seats eq_refl eq_refl)
    as (j & s' & Hadv & _ & _ & Hin & _ & H3).
  destruct (H3 11 12 13 eq_refl eq_refl) as (-> & Hc & Hnext).
  - vm_compute. reflexivity.
  - vm_compute. discriminate.
  - exists s'. split; [exact Hadv|]. split; [|split; assumption].
    destruct (Hin 13 eq_refl) as [_ ->]. reflexivity.
Defined.

(** ** C6: the cursor invariant *)

(** C6. In every state reached from a new table by [add_player],
    [remove_player], [start], [player_hit], [player_stand],
    [player_double] and [advance_turn], a started session is finished or
    its cursor is on a seated participant whose hand is in the hand map
    with a value of at most 21. *)
Theorem C6_cursor_invariant (s : Table.Session) :
  Table.reachable s -> Table.started s = true ->
  Table.finished s = true \/
  exists uid hand,
    Table.current_player_id s = Some uid /\
    Table.order s !! Table.turn_index s = Some uid /\
    uid ∈ Table.order s /\
    Table.players s !! uid = Some hand /\
    value_of hand <= 21.
Proof.
  intros Hr Hs. destruct (Table.reachable_inv s Hr) as [_ Hc].
  destruct (Table.finished s) eqn:Hf; [left; reflexivity|right].
  destruct (Hc Hs Hf) as (uid & hand & Hu & Hh & Hv).
  exists uid, hand. unfold Table.current_player_id. rewrite Hs, Hf. simpl.
  repeat split; try assumption. eapply list_elem_of_lookup_2, Hu.
Qed.

(** A table created, joined by one participant and started. *)
Definition started_table : Table.Session :=
  Table.run Table.Start
    (Table.run (Table.AddPlayer 11)
       (Table.init 1 2 11 (Random.mkRng (fun n => (7 * n + 3)%nat) 0))).

Lemma C6_started_table_witness :
  Table.finished started_table = true \/
  exists uid hand,
    Table.current_player_id started_table = Some uid /\
    Table.order started_table !! Table.turn_index started_table = Some uid /\
    uid ∈ Table.order started_table /\
    Table.players started_table !! uid = Some hand /\
    value_of hand <= 21.
Proof.
  apply C6_cursor_invariant.
  - unfold started_table. do 2 apply Table.reach_step. apply Table.reach_init.
  - vm_compute. reflexivity.
Defined.

(** ** C7: joining a table *)

(** C7. [add_player uid] returns [True] exactly when the session is
    neither started nor finished and [uid] has no hand yet; it then
    appends [uid] to the seat order and gives it the empty hand, touching
    nothing else.  Otherwise it returns [False] and the session is as
    before.  In a reachable session, having a hand and being in the seat
    order are the same. *)
Theorem C7_add_player (uid : Z) (s : Table.Session) :
  ((Table.started s = false /\ Table.finished s = false /\
    Table.players s !! uid = None /\
    Table.add_player uid s =
      Ok true (Table.set_order (Table.order s ++ [uid])
                 (Table.set_players (<[uid := []]> (Table.players s)) s)))
   \/
   ((Table.started s = true \/ Table.finished s = true \/
     is_Some (Table.players s !! uid)) /\
    Table.add_player uid s = Ok false s)) /\
  (Table.reachable s ->
   (is_Some (Table.players s !! uid) <-> uid ∈ Table.order s)).
Proof.
  split.
  - unfold Table.add_player.
    destruct (Table.started s) eqn:Hs; [right; simpl; tauto|].
    destruct (Table.finished s) eqn:Hf; [right; simpl; tauto|]. simpl.
    destruct (decide (is_Some (Table.players s !! uid))) as [Hin|Hout].
    + right. tauto.
    + left. repeat split. apply eq_None_not_Some, Hout.
  - intros Hr. destruct (Table.reachable_inv s Hr) as [[_ Hdom] _].
    symmetry. apply Hdom.
Qed.

(** ** C8: actions out of turn *)

(** C8. A hit, stand or double by an identity that is not the current
    actor, or on a session that is not started or already finished,
    returns with the session exactly as it was. *)
Theorem C8_out_of_turn_noop (uid : Z) (s : Table.Session) :
  Table.started s = false \/ Table.finished s = true \/
  Table.current_player_id s <> Some uid ->
  Table.player_hit uid s = Ok tt s /\
  Table.player_stand uid s = Ok tt s /\
  Table.player_double uid s = Ok tt s.
Proof.
  intros H. apply Table.not_actor_noop.
  unfold Table.current_player_id.
  destruct H as [-> | [-> | H]]; simpl; try discriminate.
  - rewrite orb_true_r. discriminate.
  - exact H.
Qed.

Lemma C8_three_seats_witness :
  Table.player_hit 12 three_seats = Ok tt three_seats /\
  Table.player_stand 12 three_seats = Ok tt three_seats /\
  Table.player_double 12 three_seats = Ok tt three_seats.
Proof.
  apply C8_out_of_turn_noop. right. right. vm_compute. discriminate.
Defined.

(** ** C9: a finished solo session *)

(** The first five cards of the solo deck: player 10+9, dealer 10+8, then
    a 5. *)
Definition solo_cards : list card :=
  [(Ten, Spades); (Nine, Hearts); (Ten, Diamonds); (Eight, Clubs); (Five, Spades)].

(** A solo session dealt 10+9 against 10+8 and settled by [stand_btn]. *)
Definition settled_solo : Solo.Session :=
  state_of (Solo.stand_btn 7
    (state_of (Solo.start
       (Solo.mkSession 7 (stacked solo_cards) [] [] false None
          (Random.mkRng (fun _ => 0%nat) 0))))).

(** C9, as the code behaves.  [hit_btn] tests only the user id: on the
    settled session above (player 19 against dealer 18, result win) a
    further hit by the player draws the five into the player hand, takes
    it from the deck and settles again, turning the result into a loss.
    In general a hit by the owner changes the player hand of any session,
    finished or not. *)
Theorem C9_hit_after_settlement_mutates :
  stacked solo_cards ≡ₚ make_deck ++ make_deck /\
  Solo.finished settled_solo = true /\
  Solo.result settled_solo = Some Win /\
  Solo.player settled_solo = [(Ten, Spades); (Nine, Hearts)] /\
  Solo.dealer settled_solo = [(Ten, Diamonds); (Eight, Clubs)] /\
  length (Solo.deck settled_solo) = 100%nat /\
  (exists s',
     Solo.hit_btn 7 settled_solo = Ok tt s' /\
     Solo.player s' = [(Ten, Spades); (Nine, Hearts); (Five, Spades)] /\
     length (Solo.deck s') = 99%nat /\
     Solo.result s' = Some Lose /\
     s' <> settled_solo) /\
  (forall s : Solo.Session,
     Solo.player (state_of (Solo.hit_btn (Solo.player_id s) s)) <> Solo.player s).
Proof.
  split; [apply (bool_decide_unpack _); vm_compute; reflexivity|].
  do 5 (split; [vm_compute; reflexivity|]). split.
  - eexists. split; [vm_compute; reflexivity|].
    do 3 (split; [vm_compute; reflexivity|]).
    intros H. apply (f_equal Solo.player) in H. vm_compute in H. discriminate H.
  - intros s. unfold Solo.hit_btn.
    destruct (decide (Solo.player_id s <> Solo.player_id s)) as [Hne|_]; [congruence|].
    destruct (Solo.hit_player_ok s) as (c & s1 & Hh & Hp & _).
    unfold bind, gets, ret. rewrite Hh.
    assert (Hgrow : forall l : list card, l ++ [c] <> l).
    { intros l H. apply (f_equal length) in H. rewrite length_app in H. simpl in H. lia. }
    destruct (21 <? value_of (Solo.player s1)).
    + destruct (Solo.solo_dealer_play_spec s1) as (drawn & s2 & -> & _ & _ & _ & Hp2 & _).
      unfold Solo.settle, modify.
      destruct (hand_value (Solo.player s2)), (hand_value (Solo.dealer s2)).
      simpl. rewrite Hp2, Hp. apply Hgrow.
    + simpl. rewrite Hp. apply Hgrow.
Qed.

(** ** C10: creating a table *)

(** C10. A new table has no seat and no hand; the host is only recorded
    in [host_id].  [start] returns [False] and changes nothing on any
    session without a seat, the new one included; once the host has
    joined through [add_player], [start] returns [True] and the session
    is started. *)
Theorem C10_new_table_has_no_seat (gid cid hid : Z) (g : Random.Rng) :
  let s := Table.init gid cid hid g in
  Table.order s = [] /\ Table.players s = ∅ /\ Table.host_id s = hid /\
  Table.started s = false /\ Table.finished s = false /\
  Table.start s = Ok false s /\
  (forall t : Table.Session, Table.order t = [] -> Table.start t = Ok false t) /\
  (exists s1 s2,
     Table.add_player hid s = Ok true s1 /\ Table.order s1 = [hid] /\
     Table.players s1 = {[hid := []]} /\
     Table.start s1 = Ok true s2 /\ Table.started s2 = true /\
     Table.order s2 = [hid]).
Proof.
  assert (Hempty : forall t : Table.Session,
            Table.order t = [] -> Table.start t = Ok false t).
  { intros t Ho. unfold Table.start. rewrite Ho.
    destruct (Table.started t || Table.finished t); reflexivity. }
  unfold Table.init, Table.reshuffle. cbn [Table.rng].
  destruct (Random.shuffle (make_deck ++ make_deck) g) as [d g'].
  cbv zeta. do 5 (split; [reflexivity|]).
  split; [apply Hempty; reflexivity|]. split; [exact Hempty|].
  eexists.
  match goal with |- context [Table.add_player hid ?s] => set (s0 := s) end.
  destruct (Table.start_ok (Table.set_order [hid]
              (Table.set_players (<[hid := []]> ∅) s0)))
    as (s2 & Hst & Hs2 & _ & _ & Ho2 & _); try reflexivity.
  { simpl. discriminate. }
  exists s2. split; [reflexivity|]. split; [reflexivity|].
  split; [reflexivity|]. split; [exact Hst|]. split; [exact Hs2|exact Ho2].
Qed.

(* ================================================================== *)
(** * Further properties of the engine *)

(** ** The hand evaluator in closed form *)

Lemma count_aces_le_hard cards : Z.of_nat (count_aces cards) <= hard_total cards.
Proof.
  induction cards as [|[r su] cards IH]; simpl; [lia|].
  destruct (decide (r = Ace)) as [->|Hr]; simpl.
  - lia.
  - pose proof (hard_value_pos r). lia.
Qed.

Lemma soften_closed aces : forall hard,
  Z.of_nat aces <= hard ->
  soften (hard + 10 * Z.of_nat aces) aces =
  if (0 <? aces)%nat && (hard + 10 <=? 21) then hard + 10 else hard.
Proof.
  induction aces as [|a IH]; intros hard Hle.
  - simpl. f_equal. lia.
  - cbn [soften].
    replace (hard + 10 * Z.of_nat (S a) - 10) with (hard + 10 * Z.of_nat a) by lia.
    change (0 <? S a)%nat with true. cbn [andb].
    destruct (Z.ltb_spec 21 (hard + 10 * Z.of_nat (S a))) as [Hbust|Hok].
    + rewrite IH by lia. destruct a as [|a].
      * simpl. destruct (Z.leb_spec (hard + 10) 21); [lia|reflexivity].
      * reflexivity.
    + destruct (Z.leb_spec (hard + 10) 21); lia.
Qed.

(** X1. The value of a hand is its total with every ace at one, plus ten
    when the hand has an ace and that still fits under 21; so a hand is
    over 21 exactly when it is over 21 with every ace at one. *)
Theorem X1_value_closed_form (cards : list card) :
  value_of cards =
    (if (0 <? count_aces cards)%nat && (hard_total cards + 10 <=? 21)
     then hard_total cards + 10 else hard_total cards) /\
  (21 < value_of cards <-> 21 < hard_total cards).
Proof.
  assert (Hv : value_of cards =
    if (0 <? count_aces cards)%nat && (hard_total cards + 10 <=? 21)
    then hard_total cards + 10 else hard_total cards).
  { rewrite value_of_unfold, raw_hard.
    apply soften_closed, count_aces_le_hard. }
  split; [exact Hv|]. rewrite Hv.
  destruct (0 <? count_aces cards)%nat; simpl; [|reflexivity].
  destruct (Z.leb_spec (hard_total cards + 10) 21); lia.
Qed.

Lemma hard_total_app l1 l2 : hard_total (l1 ++ l2) = hard_total l1 + hard_total l2.
Proof. induction l1 as [|c l1 IH]; simpl; [reflexivity|]. rewrite IH. lia. Qed.

Lemma bust_iff_hard cards : 21 < value_of cards <-> 21 < hard_total cards.
Proof.
  rewrite value_of_unfold, raw_hard, soften_closed by apply count_aces_le_hard.
  destruct (0 <? count_aces cards)%nat; simpl; [|reflexivity].
  destruct (Z.leb_spec (hard_total cards + 10) 21); lia.
Qed.

(** X2. A hand over 21 stays over 21 whatever cards are added to it, and
    a hand of three or more cards never carries the blackjack flag. *)
Theorem X2_bust_is_final (cards more : list card) :
  21 < value_of cards ->
  21 < value_of (cards ++ more) /\ snd (hand_value (cards ++ more)) = false.
Proof.
  intros Hb. assert (Hb' : 21 < value_of (cards ++ more)).
  { apply bust_iff_hard. apply bust_iff_hard in Hb. rewrite hard_total_app.
    pose proof (hard_total_nonneg more). lia. }
  split; [exact Hb'|]. unfold value_of in Hb'.
  rewrite hand_value_unfold in *. simpl in *.
  apply andb_false_iff. right. apply Z.eqb_neq. lia.
Qed.

Lemma X2_bust_is_final_witness :
  21 < value_of ([(Ten, Spades); (Nine, Hearts); (Five, Spades)] ++ [(Ace, Clubs)]) /\
  snd (hand_value ([(Ten, Spades); (Nine, Hearts); (Five, Spades)] ++ [(Ace, Clubs)]))
    = false.
Proof. apply X2_bust_is_final. vm_compute. reflexivity. Defined.

Lemma raw_total_ranks cards :
  raw_total cards = fold_right (fun r acc => card_value r + acc) 0 (map fst cards).
Proof. induction cards as [|c cards IH]; simpl; [reflexivity|]. rewrite IH. reflexivity. Qed.

Lemma count_aces_ranks cards :
  count_aces cards =
  fold_right (fun r n => if decide (r = Ace) then S n else n) 0%nat (map fst cards).
Proof. induction cards as [|c cards IH]; simpl; [reflexivity|]. rewrite IH. reflexivity. Qed.

(** X3. [hand_value] depends only on the ranks held, not on their order
    nor on the suits. *)
Theorem X3_hand_value_order_and_suits (l1 l2 : list card) :
  map fst l1 ≡ₚ map fst l2 -> hand_value l1 = hand_value l2.
Proof.
  intros Hp. rewrite !hand_value_unfold.
  assert (Hlen : length l1 = length l2).
  { apply Permutation_length in Hp. rewrite !length_map in Hp. exact Hp. }
  assert (Hraw : raw_total l1 = raw_total l2).
  { rewrite !raw_total_ranks. induction Hp; simpl; lia. }
  assert (Hac : count_aces l1 = count_aces l2).
  { rewrite !count_aces_ranks. induction Hp; simpl.
    - reflexivity.
    - rewrite IHHp. reflexivity.
    - destruct (decide (x = Ace)), (decide (y = Ace)); reflexivity.
    - congruence. }
  rewrite Hlen, Hraw, Hac. reflexivity.
Qed.

Lemma X3_hand_value_order_and_suits_witness :
  hand_value [(King, Spades); (Ace, Hearts); (Five, Clubs)] =
  hand_value [(Five, Diamonds); (King, Hearts); (Ace, Spades)].
Proof.
  apply X3_hand_value_order_and_suits.
  apply (bool_decide_unpack _). vm_compute. reflexivity.
Defined.

(** ** The shoe of a new session *)

Lemma two_decks_twice (c : card) :
  length (filter (fun d => d = c) (make_deck ++ make_deck)) = 2%nat.
Proof. destruct c as [[] []]; vm_compute; reflexivity. Qed.

(** X4. Whatever the generator does, a new solo session and a new table
    start with 104 cards in the deck, every card of the 52 exactly twice. *)
Theorem X4_new_deck_two_of_each (pid gid cid hid : Z) (g : Random.Rng) (c : card) :
  length (Solo.deck (Solo.init pid g)) = 104%nat /\
  length (filter (fun d => d = c) (Solo.deck (Solo.init pid g))) = 2%nat /\
  length (Table.deck (Table.init gid cid hid g)) = 104%nat /\
  length (filter (fun d => d = c) (Table.deck (Table.init gid cid hid g))) = 2%nat.
Proof.
  unfold Solo.init, Solo.reshuffle, Table.init, Table.reshuffle.
  cbn [Solo.rng Table.rng].
  pose proof (shuffle_Permutation (make_deck ++ make_deck) g) as Hp.
  destruct (Random.shuffle (make_deck ++ make_deck) g) as [d g'].
  cbn [fst] in Hp. cbn [Solo.set_rng Solo.set_deck Solo.deck Table.set_rng Table.set_deck Table.deck].
  rewrite Hp. rewrite two_decks_twice. repeat split; reflexivity.
Qed.

(** ** The solo session: dealing and the three buttons *)

Lemma solo_draw_top s d c :
  Solo.deck s = d ++ [c] -> Solo.draw s = Ok c (Solo.set_deck d s).
Proof.
  intros Hd. unfold Solo.draw.
  destruct (Solo.deck s) as [|c0 d0] eqn:He.
  - destruct d; discriminate.
  - rewrite He, Hd, list_pop_snoc. reflexivity.
Qed.

(** X5. [start] never raises and leaves two cards in each hand, neither
    over 21, without touching the flags.  When the deck holds at least
    four cards they are its last four, the first two popped going to the
    player, and the generator is not consulted. *)
Theorem X5_solo_start_deals (s : Solo.Session) :
  exists p1 p2 d1 d2 s',
    Solo.start s = Ok tt s' /\
    Solo.player s' = [p1; p2] /\ Solo.dealer s' = [d1; d2] /\
    value_of (Solo.player s') <= 21 /\ value_of (Solo.dealer s') <= 21 /\
    Solo.finished s' = Solo.finished s /\ Solo.result s' = Solo.result s /\
    ((4 <= length (Solo.deck s))%nat ->
       Solo.deck s = Solo.deck s' ++ [d2; d1; p2; p1] /\ Solo.rng s' = Solo.rng s).
Proof.
  unfold Solo.start, bind, modify.
  destruct (Solo.solo_draw_ok s) as (p1 & s1 & H1 & Hp1 & Hd1 & Hf1 & Hr1 & _).
  destruct (Solo.solo_draw_ok s1) as (p2 & s2 & H2 & Hp2 & Hd2 & Hf2 & Hr2 & _).
  set (s2' := Solo.set_player [p1; p2] s2).
  destruct (Solo.solo_draw_ok s2') as (d1 & s3 & H3 & Hp3 & Hd3 & Hf3 & Hr3 & _).
  destruct (Solo.solo_draw_ok s3) as (d2 & s4 & H4 & Hp4 & Hd4 & Hf4 & Hr4 & _).
  exists p1, p2, d1, d2. eexists. rewrite H1, H2. fold s2'. rewrite H3, H4.
  split; [reflexivity|]. simpl.
  assert (Hp : Solo.player s4 = [p1; p2]) by (rewrite Hp4, Hp3; reflexivity).
  split; [exact Hp|]. split; [reflexivity|].
  split; [rewrite Hp; apply Table.two_card_value|].
  split; [apply Table.two_card_value|].
  split; [rewrite Hf4, Hf3; simpl; congruence|].
  split; [rewrite Hr4, Hr3; simpl; congruence|].
  intros Hlen.
  destruct (Solo.deck s) as [|x0 l0] eqn:Hdeck using rev_ind; [simpl in Hlen; lia|].
  clear IHl0. rewrite length_app in Hlen. simpl in Hlen.
  destruct l0 as [|x1 l1 _] using rev_ind; [simpl in Hlen; lia|].
  rewrite length_app in Hlen. simpl in Hlen.
  destruct l1 as [|x2 l2 _] using rev_ind; [simpl in Hlen; lia|].
  rewrite length_app in Hlen. simpl in Hlen.
  destruct l2 as [|x3 l3 _] using rev_ind; [simpl in Hlen; lia|].
  rewrite (solo_draw_top s _ _ Hdeck) in H1. inversion H1; subst p1 s1.
  rewrite (solo_draw_top _ (l3 ++ [x3] ++ [x2]) x1) in H2
    by (simpl; rewrite <- !app_assoc; reflexivity).
  inversion H2; subst p2 s2.
  rewrite (solo_draw_top s2' (l3 ++ [x3]) x2) in H3
    by (simpl; rewrite <- !app_assoc; reflexivity).
  inversion H3; subst d1 s3.
  rewrite (solo_draw_top _ l3 x3) in H4 by reflexivity.
  inversion H4; subst d2 s4. simpl.
  split; [rewrite <- !app_assoc; reflexivity|reflexivity].
Qed.

(** One [hit]: a card joins the targeted hand; it is the last card of the
    deck whenever the deck is not empty. *)
Lemma solo_hit_cards t s : exists c s',
  Solo.hit t s = Ok tt s' /\
  Solo.player s' = (match t with Solo.ToPlayer => Solo.player s ++ [c]
                            | Solo.ToDealer => Solo.player s end) /\
  Solo.dealer s' = (match t with Solo.ToPlayer => Solo.dealer s
                            | Solo.ToDealer => Solo.dealer s ++ [c] end) /\
  Solo.finished s' = Solo.finished s /\ Solo.result s' = Solo.result s /\
  Solo.player_id s' = Solo.player_id s /\
  ((1 <= length (Solo.deck s))%nat ->
     Solo.deck s = Solo.deck s' ++ [c] /\ Solo.rng s' = Solo.rng s).
Proof.
  destruct (Solo.solo_draw_ok s) as (c & s1 & Hd & Hp & Hde & Hf & Hr & Hi).
  exists c. eexists. unfold Solo.hit, bind, modify. rewrite Hd.
  split; [reflexivity|].
  assert (Htop : (1 <= length (Solo.deck s))%nat ->
                 Solo.deck s = Solo.deck s1 ++ [c] /\ Solo.rng s1 = Solo.rng s).
  { intros Hlen.
    destruct (Solo.deck s) as [|x l _] eqn:Hdeck using rev_ind; [simpl in Hlen; lia|].
    rewrite (solo_draw_top s l x Hdeck) in Hd. inversion Hd; subst. split; reflexivity. }
  destruct t; simpl; rewrite ?Hp, ?Hde;
    (split; [reflexivity|]; split; [reflexivity|]; split; [assumption|];
     split; [assumption|]; split; [assumption|exact Htop]).
Qed.

Lemma draws_bounded (hand drawn : list card) :
  (forall k, (k < length drawn)%nat -> value_of (hand ++ take k drawn) < 17) ->
  (length drawn <= 17)%nat.
Proof.
  intros Hk. destruct drawn as [|c drawn _] using rev_ind; [simpl; lia|].
  rewrite length_app in *. simpl in *.
  specialize (Hk (length drawn) ltac:(lia)). rewrite take_app_length in Hk.
  pose proof (hard_le_value (hand ++ drawn)) as Hh.
  pose proof (count_aces_le_hard (hand ++ drawn)) as Ha.
  assert (Hlen : forall l : list card, Z.of_nat (length l) <= hard_total l).
  { induction l as [|d l IHl]; simpl hard_total; simpl length; [lia|].
    pose proof (hard_value_pos (fst d)). lia. }
  pose proof (Hlen (hand ++ drawn)) as Hl. rewrite length_app in Hl. lia.
Qed.

(** The dealer's turn with the deck in view: the cards drawn are the last
    ones of the deck, in pop order, as long as the deck suffices. *)
Lemma solo_dealer_play_cards s : exists drawn s',
  Solo.dealer_play s = Ok tt s' /\
  Solo.dealer s' = Solo.dealer s ++ drawn /\
  Solo.player s' = Solo.player s /\
  Solo.finished s' = Solo.finished s /\ Solo.result s' = Solo.result s /\
  Solo.player_id s' = Solo.player_id s /\
  17 <= value_of (Solo.dealer s') /\
  (length drawn <= 17)%nat /\
  (17 <= value_of (Solo.dealer s) -> drawn = []) /\
  ((length drawn <= length (Solo.deck s))%nat ->
     Solo.deck s = Solo.deck s' ++ rev drawn /\ Solo.rng s' = Solo.rng s).
Proof.
  destruct (Solo.solo_dealer_play_spec s)
    as (drawn & s' & Hdp & Hd & Hv & Hk & Hp & Hf & Hr & Hi).
  exists drawn, s'. split; [exact Hdp|]. split; [exact Hd|].
  split; [exact Hp|]. split; [exact Hf|]. split; [exact Hr|]. split; [exact Hi|].
  split; [exact Hv|]. split; [eapply draws_bounded, Hk|]. split.
  { intros Hge. destruct drawn as [|c drawn]; [reflexivity|].
    specialize (Hk 0%nat ltac:(simpl; lia)). simpl in Hk. rewrite app_nil_r in Hk. lia. }
  clear Hp Hf Hr Hi. revert s s' Hdp Hd Hk Hv.
  induction drawn as [|c drawn IH]; intros s s' Hdp Hd Hk Hv Hlen.
  - rewrite Solo.solo_dealer_play_step in Hdp.
    destruct (value_of (Solo.dealer s) <? 17) eqn:Hlow.
    + exfalso. apply Z.ltb_lt in Hlow. rewrite Hd, app_nil_r in Hv. lia.
    + inversion Hdp; subst s'. simpl. rewrite app_nil_r. split; reflexivity.
  - rewrite Solo.solo_dealer_play_step in Hdp.
    pose proof (Hk 0%nat ltac:(simpl; lia)) as Hlow. simpl in Hlow.
    rewrite app_nil_r in Hlow. apply Z.ltb_lt in Hlow. rewrite Hlow in Hdp.
    unfold bind in Hdp.
    destruct (solo_hit_cards Solo.ToDealer s) as (c1 & s1 & Hh & _ & Hd1 & _ & _ & _ & Htop).
    rewrite Hh in Hdp.
    assert (Hc : c1 = c /\ Solo.dealer s' = Solo.dealer s1 ++ drawn).
    { destruct (Solo.solo_dealer_play_spec s1) as (dr1 & s3 & Hdp3 & Hd3 & _).
      rewrite Hdp in Hdp3. inversion Hdp3; subst s3.
      rewrite Hd, Hd1, <- app_assoc in Hd3. apply app_inv_head in Hd3.
      simpl in Hd3. inversion Hd3; subst. split; [reflexivity|].
      rewrite Hd, Hd1, <- app_assoc. reflexivity. }
    destruct Hc as [-> Hd'].
    simpl in Hlen. destruct (Htop ltac:(lia)) as [Hdeck Hrng].
    destruct (IH s1 s' Hdp Hd') as [Hdeck' Hrng'].
    + intros k Hlt. specialize (Hk (S k) ltac:(simpl; lia)). simpl in Hk.
      rewrite Hd1, <- app_assoc. exact Hk.
    + exact Hv.
    + apply (f_equal length) in Hdeck. rewrite length_app in Hdeck. simpl in Hdeck. lia.
    + simpl. rewrite Hdeck, Hdeck', <- app_assoc. split; [reflexivity|congruence].
Qed.

Lemma solo_not_owner (user : Z) (s : Solo.Session) :
  user <> Solo.player_id s ->
  Solo.hit_btn user s = Ok tt s /\
  Solo.stand_btn user s = Ok tt s /\
  Solo.double_btn user s = Ok tt s.
Proof.
  intros Hne. unfold Solo.hit_btn, Solo.stand_btn, Solo.double_btn.
  destruct (decide (user <> Solo.player_id s)); [tauto|contradiction].
Qed.

(** X6. The three solo buttons answer only the owner of the session: a
    press by any other user leaves the session as it was. *)
Theorem X6_solo_buttons_owner_only (user : Z) (s : Solo.Session) :
  user <> Solo.player_id s ->
  Solo.hit_btn user s = Ok tt s /\
  Solo.stand_btn user s = Ok tt s /\
  Solo.double_btn user s = Ok tt s.
Proof.
  intros Hne. unfold Solo.hit_btn, Solo.stand_btn, Solo.double_btn.
  destruct (decide (user <> Solo.player_id s)) as [_|Heq].
  - repeat split.
  - contradiction.
Qed.

Lemma X6_solo_buttons_owner_only_witness :
  Solo.hit_btn 8 settled_solo = Ok tt settled_solo /\
  Solo.stand_btn 8 settled_solo = Ok tt settled_solo /\
  Solo.double_btn 8 settled_solo = Ok tt settled_solo.
Proof. apply X6_solo_buttons_owner_only. vm_compute. discriminate. Defined.

(** [settle] in terms of the hands it reads. *)
Lemma solo_settle_fields s : exists r s',
  Solo.settle s = Ok tt s' /\ Solo.finished s' = true /\ Solo.result s' = Some r /\
  Solo.player s' = Solo.player s /\ Solo.dealer s' = Solo.dealer s /\
  Solo.deck s' = Solo.deck s /\ Solo.rng s' = Solo.rng s /\
  Solo.player_id s' = Solo.player_id s /\
  spec_settlement (hand_value (Solo.player s)) (hand_value (Solo.dealer s)) r.
Proof.
  destruct (solo_settle_result s) as (r & Hs & Hr).
  exists r. eexists. split; [exact Hs|]. do 7 (split; [reflexivity|]). exact Hr.
Qed.

Lemma settlement_bust p d r :
  spec_settlement p d r -> 21 < fst p -> r = Lose.
Proof. destruct p, d. intros (H & _) Hb. apply H, Hb. Qed.

(** A solo session dealt 10+9 against 10+8, the player to act. *)
Definition dealt_solo : Solo.Session :=
  state_of (Solo.start
    (Solo.mkSession 7 (stacked solo_cards) [] [] false None
       (Random.mkRng (fun _ => 0%nat) 0))).

(** X7. Stand by the owner of an unfinished session always ends the game:
    the dealer draws up to 17 or more (nothing when already there), the
    player hand is kept, the session is finished and its result is the
    settlement of the two final hands. *)
Theorem X7_solo_stand (s : Solo.Session) :
  Solo.finished s = false ->
  exists drawn r s',
    Solo.stand_btn (Solo.player_id s) s = Ok tt s' /\
    Solo.player s' = Solo.player s /\
    Solo.dealer s' = Solo.dealer s ++ drawn /\
    (17 <= value_of (Solo.dealer s) -> drawn = []) /\
    17 <= value_of (Solo.dealer s') /\
    Solo.finished s' = true /\ Solo.result s' = Some r /\
    spec_settlement (hand_value (Solo.player s')) (hand_value (Solo.dealer s')) r.
Proof.
  intros _. unfold Solo.stand_btn.
  destruct (decide (Solo.player_id s <> Solo.player_id s)) as [Hne|_]; [congruence|].
  destruct (solo_dealer_play_cards s)
    as (drawn & s1 & Hdp & Hd & Hp & _ & _ & _ & Hv & _ & Hstay & _).
  destruct (solo_settle_fields s1) as (r & s' & Hs & Hf & Hr & Hp' & Hd' & _ & _ & _ & Hrel).
  exists drawn, r, s'. unfold bind. rewrite Hdp, Hs.
  rewrite Hp', Hd'. split; [reflexivity|]. split; [exact Hp|]. split; [exact Hd|].
  split; [exact Hstay|]. split; [exact Hv|]. split; [exact Hf|].
  split; [exact Hr|exact Hrel].
Qed.

Lemma X7_solo_stand_witness : exists drawn r s',
  Solo.stand_btn (Solo.player_id dealt_solo) dealt_solo = Ok tt s' /\
  Solo.player s' = Solo.player dealt_solo /\
  Solo.dealer s' = Solo.dealer dealt_solo ++ drawn /\
  (17 <= value_of (Solo.dealer dealt_solo) -> drawn = []) /\
  17 <= value_of (Solo.dealer s') /\
  Solo.finished s' = true /\ Solo.result s' = Some r /\
  spec_settlement (hand_value (Solo.player s')) (hand_value (Solo.dealer s')) r.
Proof. apply X7_solo_stand. vm_compute. reflexivity. Defined.

(** X8. Double by the owner of an unfinished session draws exactly one
    card for the player and always ends the game.  A player over 21 loses without the dealer
    drawing; otherwise the dealer plays to 17 or more before the
    settlement. *)
Theorem X8_solo_double (s : Solo.Session) :
  Solo.finished s = false ->
  exists c drawn r s',
    Solo.double_btn (Solo.player_id s) s = Ok tt s' /\
    Solo.player s' = Solo.player s ++ [c] /\
    Solo.dealer s' = Solo.dealer s ++ drawn /\
    Solo.finished s' = true /\ Solo.result s' = Some r /\
    spec_settlement (hand_value (Solo.player s')) (hand_value (Solo.dealer s')) r /\
    (21 < value_of (Solo.player s') -> drawn = [] /\ r = Lose) /\
    (value_of (Solo.player s') <= 21 -> 17 <= value_of (Solo.dealer s')).
Proof.
  intros _. unfold Solo.double_btn.
  destruct (decide (Solo.player_id s <> Solo.player_id s)) as [Hne|_]; [congruence|].
  destruct (solo_hit_cards Solo.ToPlayer s) as (c & s1 & Hh & Hp1 & Hd1 & _).
  unfold bind, gets, ret. rewrite Hh.
  destruct (Z.leb_spec (value_of (Solo.player s1)) 21) as [Hok|Hbust].
  - destruct (solo_dealer_play_cards s1)
      as (drawn & s2 & Hdp & Hd & Hp & _ & _ & _ & Hv & _).
    destruct (solo_settle_fields s2)
      as (r & s' & Hs & Hf & Hr & Hp' & Hd' & _ & _ & _ & Hrel).
    exists c, drawn, r, s'. rewrite Hdp, Hs. rewrite Hp', Hd'.
    split; [reflexivity|]. split; [congruence|]. split; [congruence|].
    split; [exact Hf|]. split; [exact Hr|]. split; [exact Hrel|].
    split; [intros Hb; rewrite Hp in Hb; lia|intros _; exact Hv].
  - destruct (solo_settle_fields s1)
      as (r & s' & Hs & Hf & Hr & Hp' & Hd' & _ & _ & _ & Hrel).
    exists c, [], r, s'. rewrite Hs. rewrite Hp', Hd', app_nil_r.
    split; [reflexivity|]. split; [congruence|]. split; [congruence|].
    split; [exact Hf|]. split; [exact Hr|]. split; [exact Hrel|].
    split; [|intros Hle; lia].
    intros _. split; [reflexivity|]. eapply settlement_bust; [exact Hrel|].
    exact Hbust.
Qed.

Lemma X8_solo_double_witness : exists c drawn r s',
  Solo.double_btn (Solo.player_id dealt_solo) dealt_solo = Ok tt s' /\
  Solo.player s' = Solo.player dealt_solo ++ [c] /\
  Solo.dealer s' = Solo.dealer dealt_solo ++ drawn /\
  Solo.finished s' = true /\ Solo.result s' = Some r /\
  spec_settlement (hand_value (Solo.player s')) (hand_value (Solo.dealer s')) r /\
  (21 < value_of (Solo.player s') -> drawn = [] /\ r = Lose) /\
  (value_of (Solo.player s') <= 21 -> 17 <= value_of (Solo.dealer s')).
Proof. apply X8_solo_double. vm_compute. reflexivity. Defined.

(** X9. Hit by the owner of an unfinished session draws exactly one card
    for the player.  While the hand stays at 21 or less the game goes on
    and nothing else changes; a hand over 21 ends the game as a loss,
    after the dealer has still played to 17 or more. *)
Theorem X9_solo_hit (s : Solo.Session) :
  Solo.finished s = false ->
  exists c drawn s',
    Solo.hit_btn (Solo.player_id s) s = Ok tt s' /\
    Solo.player s' = Solo.player s ++ [c] /\
    Solo.dealer s' = Solo.dealer s ++ drawn /\
    (value_of (Solo.player s') <= 21 ->
       drawn = [] /\ Solo.finished s' = false /\
       Solo.result s' = Solo.result s) /\
    (21 < value_of (Solo.player s') ->
       Solo.finished s' = true /\ Solo.result s' = Some Lose /\
       17 <= value_of (Solo.dealer s')).
Proof.
  intros Hunf. unfold Solo.hit_btn.
  destruct (decide (Solo.player_id s <> Solo.player_id s)) as [Hne|_]; [congruence|].
  destruct (solo_hit_cards Solo.ToPlayer s) as (c & s1 & Hh & Hp1 & Hd1 & Hf1 & Hr1 & _).
  unfold bind, gets, ret. rewrite Hh.
  destruct (Z.ltb_spec 21 (value_of (Solo.player s1))) as [Hbust|Hok].
  - destruct (solo_dealer_play_cards s1)
      as (drawn & s2 & Hdp & Hd & Hp & _ & _ & _ & Hv & _).
    destruct (solo_settle_fields s2)
      as (r & s' & Hs & Hf & Hr & Hp' & Hd' & _ & _ & _ & Hrel).
    exists c, drawn, s'. rewrite Hdp, Hs. rewrite Hp', Hd'.
    split; [reflexivity|]. split; [congruence|]. split; [congruence|].
    split; [intros Hle; rewrite Hp in Hle; lia|].
    intros _. split; [exact Hf|]. split; [|exact Hv].
    rewrite Hr. f_equal. eapply settlement_bust; [exact Hrel|].
    rewrite Hp. exact Hbust.
  - exists c, [], s1. rewrite app_nil_r.
    split; [reflexivity|]. split; [exact Hp1|]. split; [exact Hd1|].
    split; [intros _; repeat split; congruence|intros Hb; lia].
Qed.

Lemma X9_solo_hit_witness : exists c drawn s',
  Solo.hit_btn (Solo.player_id dealt_solo) dealt_solo = Ok tt s' /\
  Solo.player s' = Solo.player dealt_solo ++ [c] /\
  Solo.dealer s' = Solo.dealer dealt_solo ++ drawn /\
  (value_of (Solo.player s') <= 21 ->
     drawn = [] /\ Solo.finished s' = false /\
     Solo.result s' = Solo.result dealt_solo) /\
  (21 < value_of (Solo.player s') ->
     Solo.finished s' = true /\ Solo.result s' = Some Lose /\
     17 <= value_of (Solo.dealer s')).
Proof. apply X9_solo_hit. vm_compute. reflexivity. Defined.

(** The cards a solo session holds, deck and both hands. *)
Definition solo_cards_held (s : Solo.Session) : list card :=
  Solo.deck s ++ Solo.player s ++ Solo.dealer s.

(** X10. While the deck holds at least 18 cards, a press of any solo
    button by anyone only moves cards from the deck to the hands: the
    cards held are the same up to order and the generator is not used. *)
Theorem X10_solo_cards_conserved (user : Z) (s : Solo.Session) :
  (18 <= length (Solo.deck s))%nat ->
  forall btn, In btn [Solo.hit_btn; Solo.stand_btn; Solo.double_btn] ->
  exists s', btn user s = Ok tt s' /\
    solo_cards_held s' ≡ₚ solo_cards_held s /\ Solo.rng s' = Solo.rng s.
Proof.
  intros Hlen btn Hbtn.
  assert (Hdealer : forall s1 : Solo.Session, (17 <= length (Solo.deck s1))%nat ->
    exists s2, (Solo.dealer_play ;;; Solo.settle)%py s1 = Ok tt s2 /\
      solo_cards_held s2 ≡ₚ solo_cards_held s1 /\ Solo.rng s2 = Solo.rng s1).
  { intros s1 Hl.
    destruct (solo_dealer_play_cards s1)
      as (drawn & s2 & Hdp & Hd & Hp & _ & _ & _ & _ & Hb & _ & Hdeck).
    destruct (Hdeck ltac:(lia)) as [Hdk Hrng].
    destruct (solo_settle_fields s2)
      as (r & s' & Hs & _ & _ & Hp' & Hd' & Hdk' & Hrng' & _).
    exists s'. unfold bind. rewrite Hdp, Hs. split; [reflexivity|].
    split; [|congruence]. unfold solo_cards_held.
    rewrite Hp', Hd', Hdk', Hd, Hp, Hdk, <- !app_assoc.
    apply Permutation_app_head.
    rewrite (Permutation_app_comm (rev drawn)), <- !app_assoc.
    do 2 apply Permutation_app_head. apply Permutation_rev. }
  assert (Hhit : exists s1, Solo.hit Solo.ToPlayer s = Ok tt s1 /\
    solo_cards_held s1 ≡ₚ solo_cards_held s /\ Solo.rng s1 = Solo.rng s /\
    (17 <= length (Solo.deck s1))%nat).
  { destruct (solo_hit_cards Solo.ToPlayer s) as (c & s1 & Hh & Hp & Hd & _ & _ & _ & Htop).
    destruct (Htop ltac:(lia)) as [Hdk Hrng].
    exists s1. split; [exact Hh|]. split; [|split; [exact Hrng|]].
    - unfold solo_cards_held. rewrite Hp, Hd, Hdk, <- !app_assoc.
      apply Permutation_app_head. simpl. symmetry. apply Permutation_middle.
    - rewrite Hdk, length_app in Hlen. simpl in Hlen. lia. }
  destruct (decide (user <> Solo.player_id s)) as [Hne|Heq].
  { destruct (solo_not_owner user s Hne) as (H1 & H2 & H3).
    exists s. simpl in Hbtn.
    destruct Hbtn as [<-|[<-|[<-|[]]]]; (split; [assumption|split; reflexivity]). }
  simpl in Hbtn. destruct Hbtn as [<-|[<-|[<-|[]]]].
  - unfold Solo.hit_btn.
    destruct (decide (user <> Solo.player_id s)); [contradiction|].
    destruct Hhit as (s1 & Hh & Hperm & Hrng & Hl).
    unfold bind at 1. rewrite Hh. unfold bind at 1, gets.
    destruct (21 <? value_of (Solo.player s1)).
    + destruct (Hdealer s1 Hl) as (s2 & -> & Hperm2 & Hrng2).
      exists s2. split; [reflexivity|]. split; [etransitivity; eassumption|congruence].
    + exists s1. split; [reflexivity|]. split; assumption.
  - unfold Solo.stand_btn.
    destruct (decide (user <> Solo.player_id s)); [contradiction|].
    apply Hdealer. lia.
  - unfold Solo.double_btn.
    destruct (decide (user <> Solo.player_id s)); [contradiction|].
    destruct Hhit as (s1 & Hh & Hperm & Hrng & Hl).
    unfold bind at 1. rewrite Hh. unfold bind at 1, gets.
    destruct (value_of (Solo.player s1) <=? 21).
    + destruct (Hdealer s1 Hl) as (s2 & Hrun & Hperm2 & Hrng2).
      unfold bind in Hrun |- *.
      destruct (Solo.dealer_play s1) as [[] s1'|]; [|discriminate].
      exists s2. split; [exact Hrun|]. split; [etransitivity; eassumption|congruence].
    + unfold bind, ret.
      destruct (solo_settle_fields s1)
        as (r & s' & Hs & _ & _ & Hp' & Hd' & Hdk' & Hrng' & _).
      exists s'. split; [exact Hs|]. split; [|congruence].
      unfold solo_cards_held. rewrite Hp', Hd', Hdk'. exact Hperm.
Qed.

Lemma X10_solo_cards_conserved_witness : exists s',
  Solo.hit_btn 7 dealt_solo = Ok tt s' /\
  solo_cards_held s' ≡ₚ solo_cards_held dealt_solo /\
  Solo.rng s' = Solo.rng dealt_solo.
Proof.
  apply (X10_solo_cards_conserved 7 dealt_solo); [vm_compute; lia|left; reflexivity].
Defined.

(** ** The table session: leaving, and what a started table keeps fixed *)

Lemma list_remove_first_snoc (uid : Z) (l : list Z) :
  uid ∉ l -> Table.list_remove_first uid (l ++ [uid]) = l.
Proof.
  induction l as [|y l IH]; intros Hn; simpl.
  - destruct (decide (uid = uid)); [reflexivity|contradiction].
  - apply not_elem_of_cons in Hn as [Hne Hn].
    destruct (decide (y = uid)); [congruence|]. rewrite IH by assumption. reflexivity.
Qed.

Lemma filter_absent (uid : Z) (l : list Z) :
  uid ∉ l -> filter (fun x => x <> uid) l = l.
Proof.
  induction l as [|y l IH]; intros Hn; [reflexivity|].
  apply not_elem_of_cons in Hn as [Hne Hn]. rewrite filter_cons.
  destruct (decide (y <> uid)) as [_|Hno]; [|exfalso; apply Hno; congruence].
  rewrite IH by assumption. reflexivity.
Qed.

Lemma list_remove_first_filter (uid : Z) (l : list Z) :
  NoDup l -> Table.list_remove_first uid l = filter (fun x => x <> uid) l.
Proof.
  induction l as [|y l IH]; intros Hnd; simpl; [reflexivity|].
  apply NoDup_cons in Hnd as [Hy Hnd]. rewrite filter_cons.
  destruct (decide (y = uid)) as [->|Hne].
  - destruct (decide (uid <> uid)); [contradiction|].
    symmetry. apply filter_absent, Hy.
  - destruct (decide (y <> uid)); [|contradiction]. rewrite IH by assumption. reflexivity.
Qed.

(** X11. [remove_player uid] returns [True] exactly in a lobby (neither
    started nor finished) where [uid] has a hand; it then drops the hand
    and the first occurrence of [uid] in the seat order.  Otherwise it
    returns [False] and changes nothing.  On a reachable table the seat
    order afterwards is the old one without [uid], the others in their
    old order. *)
Theorem X11_remove_player (uid : Z) (s : Table.Session) :
  ((Table.started s = false /\ Table.finished s = false /\
    is_Some (Table.players s !! uid) /\
    Table.remove_player uid s =
      Ok true (Table.set_order (Table.list_remove_first uid (Table.order s))
                 (Table.set_players (delete uid (Table.players s)) s)))
   \/
   ((Table.started s = true \/ Table.finished s = true \/
     Table.players s !! uid = None) /\
    Table.remove_player uid s = Ok false s)) /\
  (Table.reachable s ->
   Table.list_remove_first uid (Table.order s)
     = filter (fun x => x <> uid) (Table.order s)).
Proof.
  split.
  - unfold Table.remove_player.
    destruct (Table.started s) eqn:Hs; [right; simpl; tauto|].
    destruct (Table.finished s) eqn:Hf; [right; simpl; tauto|]. simpl.
    destruct (decide (is_Some (Table.players s !! uid))) as [Hin|Hout].
    + left. tauto.
    + right. split; [|reflexivity]. right. right. apply eq_None_not_Some, Hout.
  - intros Hr. destruct (Table.reachable_inv s Hr) as [[Hnd _] _].
    apply list_remove_first_filter, Hnd.
Qed.

(** X12. Joining and leaving again gives back the very same session: in a
    reachable lobby where [uid] is not seated, [add_player uid] followed
    by [remove_player uid] both return [True] and end in the state before
    the join. *)
Theorem X12_join_then_leave (uid : Z) (s : Table.Session) :
  Table.reachable s -> Table.started s = false -> Table.finished s = false ->
  uid ∉ Table.order s ->
  exists s1, Table.add_player uid s = Ok true s1 /\
             Table.remove_player uid s1 = Ok true s.
Proof.
  intros Hr Hs Hf Hn. destruct (Table.reachable_inv s Hr) as [[Hnd Hdom] _].
  assert (Hnone : Table.players s !! uid = None).
  { apply eq_None_not_Some. intros H. apply Hn, Hdom, H. }
  unfold Table.add_player. rewrite Hs, Hf. simpl.
  destruct (decide (is_Some (Table.players s !! uid))) as [[x Hx]|_]; [congruence|].
  eexists. split; [reflexivity|].
  unfold Table.remove_player. simpl. rewrite Hs, Hf. simpl.
  rewrite lookup_insert_eq.
  destruct (decide (is_Some (Some (@nil card)))) as [_|Hno]; [|exfalso; apply Hno; eauto].
  rewrite list_remove_first_snoc by assumption.
  rewrite delete_insert_eq, delete_id by assumption.
  destruct s; reflexivity.
Qed.

(** A new table that its host has joined. *)
Definition lobby_table : Table.Session :=
  Table.run (Table.AddPlayer 11)
    (Table.init 1 2 11 (Random.mkRng (fun n => (7 * n + 3)%nat) 0)).

Lemma lobby_table_reachable : Table.reachable lobby_table.
Proof. apply Table.reach_step, Table.reach_init. Qed.

Lemma X12_join_then_leave_witness : exists s1,
  Table.add_player 12 lobby_table = Ok true s1 /\
  Table.remove_player 12 s1 = Ok true lobby_table.
Proof.
  apply X12_join_then_leave.
  - apply lobby_table_reachable.
  - vm_compute. reflexivity.
  - vm_compute. reflexivity.
  - apply (bool_decide_unpack _). vm_compute. reflexivity.
Defined.

Lemma settle_one_spec (d hand : list card) (uid : Z) : exists r,
  Table.settle_one (fst (hand_value d)) (snd (hand_value d)) uid hand ∅ !! uid = Some r /\
  spec_settlement (hand_value hand) (hand_value d) r.
Proof.
  unfold Table.settle_one, spec_settlement.
  destruct (hand_value hand) as [pv pbj]. destruct (hand_value d) as [dv dbj].
  cbn [fst snd]. rewrite lookup_insert_eq. eexists. split; [reflexivity|].
  destruct (Z.ltb_spec 21 pv); [repeat split; intros; first [reflexivity|lia]|].
  destruct (Z.ltb_spec 21 dv); [repeat split; intros; first [reflexivity|lia]|].
  destruct pbj, dbj; simpl;
    try (repeat split; intros; first [reflexivity|lia|discriminate]);
    destruct (Z.ltb_spec dv pv);
    try (repeat split; intros; first [reflexivity|lia|discriminate]);
    destruct (Z.ltb_spec pv dv);
    repeat split; intros; first [reflexivity|lia|discriminate].
Qed.

(** What [advance_turn] does to an active table, field by field. *)
Lemma advance_turn_effect s :
  Table.started s = true -> Table.finished s = false ->
  exists s',
    Table.advance_turn s = Ok tt s' /\
    Table.order s' = Table.order s /\ Table.players s' = Table.players s /\
    Table.started s' = true /\
    (Table.turn_index s < Table.turn_index s')%nat /\
    (Table.finished s' = false ->
       Table.dealer s' = Table.dealer s /\ Table.deck s' = Table.deck s /\
       Table.results s' = Table.results s /\ Table.rng s' = Table.rng s) /\
    (Table.finished s' = true ->
       17 <= value_of (Table.dealer s') /\
       forall uid hand, Table.players s !! uid = Some hand ->
         exists r, Table.results s' !! uid = Some r /\
           spec_settlement (hand_value hand) (hand_value (Table.dealer s')) r).
Proof.
  intros Hs Hf.
  destruct (Table.advance_turn_spec s Hs Hf) as (j & s' & Hadv & Hlt & _ & Hin & Hout).
  exists s'. split; [exact Hadv|].
  destruct (Table.order s !! j) as [uid|] eqn:Hj.
  - destruct (Hin uid eq_refl) as [_ ->]. simpl.
    split; [reflexivity|]. split; [reflexivity|]. split; [exact Hs|].
    split; [exact Hlt|]. split; [intros _; repeat split|].
    intros Hfin. congruence.
  - destruct (Hout eq_refl) as (s1 & Hdp & Hsa & Hv & Hfin & Hst & Hti & Ho & Hp).
    split; [exact Ho|]. split; [exact Hp|]. split; [exact Hst|].
    split; [lia|]. split; [intros H; congruence|]. intros _.
    split; [exact Hv|]. intros uid hand Hh.
    destruct (Table.settle_all_ok s1) as (r & Hsa' & Hlook).
    rewrite Hsa in Hsa'. inversion Hsa'; subst s'. simpl in *.
    rewrite Hlook, Hp, Hh. apply settle_one_spec.
Qed.

(** X13. A finished table is frozen: each of the seven operations, by
    whatever identity, leaves every field as it is. *)
Theorem X13_finished_table_frozen (o : Table.op) (s : Table.Session) :
  Table.finished s = true -> Table.run o s = s.
Proof.
  intros Hf. destruct o as [uid|uid| |uid|uid|uid| ]; simpl;
    unfold Table.add_player, Table.remove_player, Table.start,
           Table.player_hit, Table.player_stand, Table.player_double,
           Table.advance_turn;
    rewrite Hf, ?orb_true_r; reflexivity.
Qed.

Lemma X13_finished_table_frozen_witness :
  Table.run (Table.Hit 11)
    (play [Table.AddPlayer 11; Table.Start; Table.Stand 11]
          (table_with_deck scenario_cards))
  = play [Table.AddPlayer 11; Table.Start; Table.Stand 11]
         (table_with_deck scenario_cards).
Proof. apply X13_finished_table_frozen. vm_compute. reflexivity. Defined.

(** One operation on a started, unfinished table. *)
Lemma started_step (o : Table.op) (s : Table.Session) :
  Table.started s = true -> Table.finished s = false ->
  let s' := Table.run o s in
  Table.order s' = Table.order s /\
  Table.started s' = true /\
  (Table.turn_index s <= Table.turn_index s')%nat /\
  (forall uid, is_Some (Table.players s' !! uid) <-> is_Some (Table.players s !! uid)) /\
  (forall uid, Table.current_player_id s <> Some uid ->
     Table.players s' !! uid = Table.players s !! uid) /\
  (Table.finished s' = false ->
     Table.dealer s' = Table.dealer s /\ Table.results s' = Table.results s) /\
  (Table.finished s' = true ->
     17 <= value_of (Table.dealer s') /\
     forall uid hand, Table.players s' !! uid = Some hand ->
       exists r, Table.results s' !! uid = Some r /\
         spec_settlement (hand_value hand) (hand_value (Table.dealer s')) r).
Proof.
  intros Hs Hf.
  assert (Hsame : let s' := s in
    Table.order s' = Table.order s /\ Table.started s' = true /\
    (Table.turn_index s <= Table.turn_index s')%nat /\
    (forall uid, is_Some (Table.players s' !! uid) <-> is_Some (Table.players s !! uid)) /\
    (forall uid, Table.current_player_id s <> Some uid ->
       Table.players s' !! uid = Table.players s !! uid) /\
    (Table.finished s' = false ->
       Table.dealer s' = Table.dealer s /\ Table.results s' = Table.results s) /\
    (Table.finished s' = true ->
       17 <= value_of (Table.dealer s') /\
       forall uid hand, Table.players s' !! uid = Some hand ->
         exists r, Table.results s' !! uid = Some r /\
           spec_settlement (hand_value hand) (hand_value (Table.dealer s')) r)).
  { cbv zeta. repeat split; try assumption; try tauto; try lia; congruence. }
  assert (Hadv : forall s0 : Table.Session,
    Table.started s0 = true -> Table.finished s0 = false ->
    Table.order s0 = Table.order s -> Table.turn_index s0 = Table.turn_index s ->
    Table.dealer s0 = Table.dealer s -> Table.results s0 = Table.results s ->
    (forall uid, is_Some (Table.players s0 !! uid) <-> is_Some (Table.players s !! uid)) ->
    (forall uid, Table.current_player_id s <> Some uid ->
       Table.players s0 !! uid = Table.players s !! uid) ->
    let s' := state_of (Table.advance_turn s0) in
    Table.order s' = Table.order s /\ Table.started s' = true /\
    (Table.turn_index s <= Table.turn_index s')%nat /\
    (forall uid, is_Some (Table.players s' !! uid) <-> is_Some (Table.players s !! uid)) /\
    (forall uid, Table.current_player_id s <> Some uid ->
       Table.players s' !! uid = Table.players s !! uid) /\
    (Table.finished s' = false ->
       Table.dealer s' = Table.dealer s /\ Table.results s' = Table.results s) /\
    (Table.finished s' = true ->
       17 <= value_of (Table.dealer s') /\
       forall uid hand, Table.players s' !! uid = Some hand ->
         exists r, Table.results s' !! uid = Some r /\
           spec_settlement (hand_value hand) (hand_value (Table.dealer s')) r)).
  { intros s0 Hs0 Hf0 Ho0 Ht0 Hd0 Hr0 Hdom0 Hoth0.
    destruct (advance_turn_effect s0 Hs0 Hf0)
      as (s' & -> & Ho & Hp & Hst & Hlt & Hopen & Hfin).
    cbv zeta. simpl. rewrite Ho, Hp.
    split; [exact Ho0|]. split; [exact Hst|]. split; [lia|].
    split; [exact Hdom0|]. split; [exact Hoth0|]. split.
    - intros H. destruct (Hopen H) as (? & _ & ? & _). split; congruence.
    - intros H. destruct (Hfin H) as [Hv Hres]. split; [exact Hv|]. exact Hres. }
  destruct o as [uid|uid| |uid|uid|uid| ]; simpl.
  - unfold Table.add_player. rewrite Hs. simpl. exact Hsame.
  - unfold Table.remove_player. rewrite Hs. simpl. exact Hsame.
  - unfold Table.start. rewrite Hs. simpl. exact Hsame.
  - destruct (decide (Table.current_player_id s = Some uid)) as [Hcur|Hne].
    2:{ destruct (Table.not_actor_noop s uid Hne) as (-> & _). exact Hsame. }
    destruct (Table.players s !! uid) as [hand|] eqn:Hh.
    2:{ unfold Table.player_hit. rewrite Hs, Hf. simpl.
        destruct (decide (Table.current_player_id s <> Some uid)); [contradiction|].
        rewrite Hh. exact Hsame. }
    destruct (Table.player_hit_actor s uid hand Hcur Hh) as (c & s1 & Hd & ->).
    destruct (Table.draw_ok s) as (c' & s1' & Hd' & Hde & Hp & Ho & Hti & Hs1 & Hf1 & Hr1 & _).
    rewrite Hd in Hd'. inversion Hd'; subst c' s1'. cbv zeta.
    set (s2 := Table.set_players (<[uid := hand ++ [c]]> (Table.players s)) s1).
    assert (Hdom2 : forall x, is_Some (Table.players s2 !! x) <-> is_Some (Table.players s !! x)).
    { intros x. simpl. destruct (decide (uid = x)) as [->|Hx].
      - rewrite lookup_insert_eq, Hh. split; eauto.
      - rewrite lookup_insert_ne by assumption. reflexivity. }
    assert (Hoth2 : forall x, Table.current_player_id s <> Some x ->
                      Table.players s2 !! x = Table.players s !! x).
    { intros x Hx. simpl. apply lookup_insert_ne. congruence. }
    destruct (21 <? value_of (hand ++ [c])).
    + apply Hadv; [simpl; congruence ..|exact Hdom2|exact Hoth2].
    + simpl. split; [exact Ho|]. split; [congruence|]. split; [lia|].
      split; [exact Hdom2|]. split; [exact Hoth2|].
      split; [intros _; split; assumption|intros H; congruence].
  - destruct (decide (Table.current_player_id s = Some uid)) as [Hcur|Hne].
    2:{ destruct (Table.not_actor_noop s uid Hne) as (_ & -> & _). exact Hsame. }
    unfold Table.player_stand. rewrite Hs, Hf. simpl.
    destruct (decide (Table.current_player_id s <> Some uid)); [contradiction|].
    apply Hadv; try reflexivity; try assumption; tauto.
  - destruct (decide (Table.current_player_id s = Some uid)) as [Hcur|Hne].
    2:{ destruct (Table.not_actor_noop s uid Hne) as (_ & _ & ->). exact Hsame. }
    destruct (Table.players s !! uid) as [hand|] eqn:Hh.
    2:{ unfold Table.player_double. rewrite Hs, Hf. simpl.
        destruct (decide (Table.current_player_id s <> Some uid)); [contradiction|].
        rewrite Hh. exact Hsame. }
    destruct (Table.player_double_actor s uid hand Hcur Hh) as (c & s1 & Hd & ->).
    destruct (Table.draw_ok s) as (c' & s1' & Hd' & Hde & Hp & Ho & Hti & Hs1 & Hf1 & Hr1 & _).
    rewrite Hd in Hd'. inversion Hd'; subst c' s1'.
    apply Hadv; simpl; try congruence.
    + intros x. destruct (decide (uid = x)) as [->|Hx].
      * rewrite lookup_insert_eq, Hh. split; eauto.
      * rewrite lookup_insert_ne by assumption. reflexivity.
    + intros x Hx. apply lookup_insert_ne. congruence.
  - apply Hadv; try reflexivity; try assumption; tauto.
Qed.

Lemma finished_noop (o : Table.op) (s : Table.Session) :
  Table.finished s = true -> Table.run o s = s.
Proof.
  intros Hf. destruct o; simpl;
    unfold Table.add_player, Table.remove_player, Table.start,
           Table.player_hit, Table.player_stand, Table.player_double,
           Table.advance_turn;
    rewrite Hf, ?orb_true_r; reflexivity.
Qed.

(** X14. Once a table is started no operation changes who is seated: the
    seat order and the set of players holding a hand stay as they are, the
    table stays started, and the turn cursor never moves back. *)
Theorem X14_started_table_seating (o : Table.op) (s : Table.Session) :
  Table.started s = true ->
  Table.order (Table.run o s) = Table.order s /\
  Table.started (Table.run o s) = true /\
  (Table.turn_index s <= Table.turn_index (Table.run o s))%nat /\
  (forall uid, is_Some (Table.players (Table.run o s) !! uid)
               <-> is_Some (Table.players s !! uid)).
Proof.
  intros Hs. destruct (Table.finished s) eqn:Hf.
  - rewrite (finished_noop o s Hf). repeat split; try assumption; try lia; tauto.
  - destruct (started_step o s Hs Hf) as (Ho & Hst & Hti & Hdom & _).
    repeat split; try assumption; apply Hdom.
Qed.

Lemma X14_started_table_seating_witness :
  Table.order (Table.run (Table.AddPlayer 14) three_seats) = Table.order three_seats /\
  Table.started (Table.run (Table.AddPlayer 14) three_seats) = true /\
  (Table.turn_index three_seats
     <= Table.turn_index (Table.run (Table.AddPlayer 14) three_seats))%nat /\
  (forall uid, is_Some (Table.players (Table.run (Table.AddPlayer 14) three_seats) !! uid)
               <-> is_Some (Table.players three_seats !! uid)).
Proof. apply X14_started_table_seating. reflexivity. Defined.

(** X15. On a started table an operation can change the hand of the
    current actor only; and as long as the operation does not finish the
    table, the dealer hand and the results are untouched too. *)
Theorem X15_only_the_actor_hand_changes (o : Table.op) (s : Table.Session) (uid : Z) :
  Table.started s = true -> Table.current_player_id s <> Some uid ->
  Table.players (Table.run o s) !! uid = Table.players s !! uid /\
  (Table.finished (Table.run o s) = false ->
     Table.dealer (Table.run o s) = Table.dealer s /\
     Table.results (Table.run o s) = Table.results s).
Proof.
  intros Hs Hne. destruct (Table.finished s) eqn:Hf.
  - rewrite (finished_noop o s Hf). repeat split.
  - destruct (started_step o s Hs Hf) as (_ & _ & _ & _ & Hoth & Hopen & _).
    split; [apply Hoth, Hne|exact Hopen].
Qed.

Lemma X15_only_the_actor_hand_changes_witness :
  Table.players (Table.run (Table.Hit 11) three_seats) !! 13
    = Table.players three_seats !! 13 /\
  (Table.finished (Table.run (Table.Hit 11) three_seats) = false ->
     Table.dealer (Table.run (Table.Hit 11) three_seats) = Table.dealer three_seats /\
     Table.results (Table.run (Table.Hit 11) three_seats) = Table.results three_seats).
Proof.
  apply X15_only_the_actor_hand_changes; [reflexivity|vm_compute; discriminate].
Defined.

Lemma deal_results uids : forall s s',
  Table.deal uids s = Ok tt s' -> Table.results s' = Table.results s.
Proof.
  induction uids as [|u uids IH]; intros s s' Hd; simpl in Hd.
  - unfold ret in Hd. congruence.
  - unfold bind, modify in Hd.
    destruct (Table.draw_ok s) as (a & t1 & Ha & _ & _ & _ & _ & _ & _ & Hr1 & _).
    destruct (Table.draw_ok t1) as (b & t2 & Hb & _ & _ & _ & _ & _ & _ & Hr2 & _).
    rewrite Ha, Hb in Hd. apply IH in Hd. simpl in Hd. congruence.
Qed.

Lemma start_results s :
  Table.results (state_of (Table.start s)) = Table.results s /\
  Table.finished (state_of (Table.start s)) = Table.finished s.
Proof.
  unfold Table.start. destruct (Table.started s || Table.finished s); [split; reflexivity|].
  destruct (Table.order s) as [|u0 us] eqn:Hord; [split; reflexivity|].
  unfold bind, modify, gets, ret.
  destruct (Table.draw_ok (Table.set_started true s))
    as (c1 & s1 & Hd1 & _ & _ & _ & _ & _ & Hf1 & Hr1 & _).
  destruct (Table.draw_ok s1) as (c2 & s2 & Hd2 & _ & _ & _ & _ & _ & Hf2 & Hr2 & _).
  rewrite Hd1, Hd2.
  destruct (Table.deal_ok (Table.order (Table.set_dealer [c1; c2] s2))
              (Table.set_dealer [c1; c2] s2)) as (s4 & Hdeal & (_ & _ & _ & Hf4) & _).
  rewrite Hdeal. simpl. apply deal_results in Hdeal. simpl in *.
  split; congruence.
Qed.







(** ** The table session: starting, hitting, and exceptions *)

(** X17. [start] on a lobby with at least one seat returns [True]: the
    dealer and every seated player hold two cards, no hand is over 21, the
    first seat of the order is the current actor, hands of unseated keys
    and the results are untouched, and the table is started and not
    finished. *)
Theorem X17_table_start_deals (s : Table.Session) (u0 : Z) (rest : list Z) :
  Table.started s = false -> Table.finished s = false ->
  Table.order s = u0 :: rest ->
  exists s',
    Table.start s = Ok true s' /\
    Table.started s' = true /\ Table.finished s' = false /\
    Table.current_player_id s' = Some u0 /\
    Table.order s' = Table.order s /\
    length (Table.dealer s') = 2%nat /\
    (forall uid, uid ∈ Table.order s ->
       exists c1 c2, Table.players s' !! uid = Some [c1; c2] /\
                     value_of [c1; c2] <= 21) /\
    (forall uid, uid ∉ Table.order s ->
       Table.players s' !! uid = Table.players s !! uid) /\
    Table.results s' = Table.results s.
Proof.
  intros Hs Hf Ho.
  destruct (Table.start_ok s Hs Hf) as (s' & Hst & Hs' & Hf' & Ht' & Ho' & Hd & Hpl).
  { rewrite Ho. discriminate. }
  exists s'. split; [exact Hst|]. split; [exact Hs'|]. split; [exact Hf'|].
  split.
  { unfold Table.current_player_id. rewrite Hs', Hf', Ho', Ht', Ho. reflexivity. }
  split; [exact Ho'|]. split; [exact Hd|]. split.
  { intros uid Hu. destruct (proj1 (Hpl uid) Hu) as (c1 & c2 & H).
    exists c1, c2. split; [exact H|apply Table.two_card_value]. }
  split; [intros uid Hu; apply (proj2 (Hpl uid) Hu)|].
  destruct (start_results s) as [Hr _]. rewrite Hst in Hr. exact Hr.
Qed.

Lemma X17_table_start_deals_witness : exists s',
  Table.start lobby_table = Ok true s' /\
  Table.started s' = true /\ Table.finished s' = false /\
  Table.current_player_id s' = Some 11 /\
  Table.order s' = Table.order lobby_table /\
  length (Table.dealer s') = 2%nat /\
  (forall uid, uid ∈ Table.order lobby_table ->
     exists c1 c2, Table.players s' !! uid = Some [c1; c2] /\
                   value_of [c1; c2] <= 21) /\
  (forall uid, uid ∉ Table.order lobby_table ->
     Table.players s' !! uid = Table.players lobby_table !! uid) /\
  Table.results s' = Table.results lobby_table.
Proof.
  apply (X17_table_start_deals lobby_table 11 []); vm_compute; reflexivity.
Defined.

(** X18. A hit by the current actor puts exactly one card into the actor's
    hand.  At 21 or less the actor keeps the turn and the dealer hand and
    the flags stay; over 21 the turn is taken from the actor at once. *)
Theorem X18_hit_by_the_actor (s : Table.Session) (uid : Z) (hand : list card) :
  Table.current_player_id s = Some uid -> Table.players s !! uid = Some hand ->
  exists c s',
    Table.player_hit uid s = Ok tt s' /\
    Table.players s' !! uid = Some (hand ++ [c]) /\
    (value_of (hand ++ [c]) <= 21 ->
       Table.current_player_id s' = Some uid /\
       Table.dealer s' = Table.dealer s /\ Table.finished s' = false) /\
    (21 < value_of (hand ++ [c]) -> Table.current_player_id s' <> Some uid).
Proof.
  intros Hcur Hh.
  destruct (Table.current_player_active s uid Hcur) as (Hs & Hf & Hu).
  destruct (Table.player_hit_actor s uid hand Hcur Hh) as (c & s1 & Hd & Hhit).
  destruct (Table.draw_ok s) as (c' & s1' & Hd' & Hde & Hp & Ho & Hti & Hs1 & Hf1 & _).
  rewrite Hd in Hd'. inversion Hd'; subst c' s1'. cbv zeta in Hhit.
  set (s2 := Table.set_players (<[uid := hand ++ [c]]> (Table.players s)) s1) in *.
  exists c. destruct (Z.ltb_spec 21 (value_of (hand ++ [c]))) as [Hbust|Hok].
  - destruct (Table.advance_turn_spec s2) as (j & s' & Hadv & Hlt & _ & Hin & Hout);
      [simpl; congruence ..|].
    exists s'. rewrite Hhit. split; [exact Hadv|].
    assert (Hp' : Table.players s' = Table.players s2 /\
                  (Table.finished s' = false -> s' = Table.set_turn_index j s2)).
    { destruct (Table.order s2 !! j) as [x|] eqn:Hj.
      - destruct (Hin x eq_refl) as [_ ->]. split; reflexivity.
      - destruct (Hout eq_refl) as (_ & _ & _ & _ & Hfin & _ & _ & _ & Hpp).
        split; [exact Hpp|congruence]. }
    destruct Hp' as [Hp' Hopen].
    split; [rewrite Hp'; simpl; apply lookup_insert_eq|].
    split; [intros Hle; lia|]. intros _ Hc.
    destruct (Table.current_player_active s' uid Hc) as (_ & Hf' & Hu').
    rewrite (Hopen Hf') in Hu'. simpl in Hu'.
    destruct (Hin uid Hu') as [Hle _]. unfold Table.hand_of in Hle. simpl in Hle.
    rewrite lookup_insert_eq in Hle. simpl in Hle. lia.
  - exists s2. rewrite Hhit. split; [reflexivity|].
    split; [simpl; apply lookup_insert_eq|].
    split; [|intros Hb; lia]. intros _.
    unfold Table.current_player_id. simpl. rewrite Hs1, Hf1, Hs, Hf, Ho, Hti. simpl.
    repeat split; assumption.
Qed.

Lemma X18_hit_by_the_actor_witness : exists c s',
  Table.player_hit 11 three_seats = Ok tt s' /\
  Table.players s' !! 11 = Some ([(Ten, Diamonds); (Eight, Spades)] ++ [c]) /\
  (value_of ([(Ten, Diamonds); (Eight, Spades)] ++ [c]) <= 21 ->
     Table.current_player_id s' = Some 11 /\
     Table.dealer s' = Table.dealer three_seats /\ Table.finished s' = false) /\
  (21 < value_of ([(Ten, Diamonds); (Eight, Spades)] ++ [c]) ->
     Table.current_player_id s' <> Some 11).
Proof. apply X18_hit_by_the_actor; vm_compute; reflexivity. Defined.



(* ================================================================== *)
(** ** The buttons of the table views

    [BlackjackTableLobby] and [BlackjackTableGame] share one session
    object; each handler below is the effect of the button on that
    session.  The messages sent and [_refresh] do not touch it; the
    removal of the registry entry by [cancel_btn] is outside the session. *)
Module Views.

Inductive press : Type :=
| Join (user : Z)
| Leave (user : Z)
| StartBtn (user : Z)
| Cancel (user : Z)
| HitBtn (user : Z)
| StandBtn (user : Z)
| DoubleBtn (user : Z).

(** [join_btn]. *)
Definition join_btn (user : Z) : M Table.Session unit := fun s =>
  if Table.finished s then Ok tt s
  else (_ <- Table.add_player user ;; ret tt)%py s.

(** [leave_btn]: the host is told to use Cancel. *)
Definition leave_btn (user : Z) : M Table.Session unit := fun s =>
  if decide (user = Table.host_id s) then Ok tt s
  else (_ <- Table.remove_player user ;; ret tt)%py s.

(** [start_btn]. *)
Definition start_btn (user : Z) : M Table.Session unit := fun s =>
  if decide (user <> Table.host_id s) then Ok tt s
  else (_ <- Table.start ;; ret tt)%py s.

(** [cancel_btn]: [self.session.finished = True]. *)
Definition cancel_btn (user : Z) : M Table.Session unit := fun s =>
  if decide (user <> Table.host_id s) then Ok tt s
  else Ok tt (Table.set_finished true s).

(** [hit_btn], [stand_btn], [double_btn] of the game view. *)
Definition hit_btn (user : Z) : M Table.Session unit := fun s =>
  if Table.finished s then Ok tt s
  else if decide (Some user <> Table.current_player_id s) then Ok tt s
  else Table.player_hit user s.

Definition stand_btn (user : Z) : M Table.Session unit := fun s =>
  if Table.finished s then Ok tt s
  else if decide (Some user <> Table.current_player_id s) then Ok tt s
  else Table.player_stand user s.

Definition double_btn (user : Z) : M Table.Session unit := fun s =>
  if Table.finished s then Ok tt s
  else if decide (Some user <> Table.current_player_id s) then Ok tt s
  else Table.player_double user s.

Definition user_of (p : press) : Z :=
  match p with
  | Join u | Leave u | StartBtn u | Cancel u | HitBtn u | StandBtn u | DoubleBtn u => u
  end.

(** The session after a press. *)
Definition click (p : press) (s : Table.Session) : Table.Session :=
  match p with
  | Join u => state_of (join_btn u s)
  | Leave u => state_of (leave_btn u s)
  | StartBtn u => state_of (start_btn u s)
  | Cancel u => state_of (cancel_btn u s)
  | HitBtn u => state_of (hit_btn u s)
  | StandBtn u => state_of (stand_btn u s)
  | DoubleBtn u => state_of (double_btn u s)
  end.

Definition clicks (ps : list press) (s : Table.Session) : Table.Session :=
  fold_left (fun s p => click p s) ps s.

End Views.

Lemma add_player_fields uid s :
  let s' := state_of (Table.add_player uid s) in
  Table.host_id s' = Table.host_id s /\ Table.started s' = Table.started s /\
  Table.finished s' = Table.finished s /\
  (forall x, x ∈ Table.order s -> x ∈ Table.order s').
Proof.
  unfold Table.add_player. destruct (Table.started s || Table.finished s); [tauto|].
  destruct (decide (is_Some (Table.players s !! uid))); [tauto|]. simpl.
  repeat split. intros x Hx. apply elem_of_app. left. exact Hx.
Qed.

Lemma list_remove_first_keeps (uid x : Z) (l : list Z) :
  x <> uid -> x ∈ l -> x ∈ Table.list_remove_first uid l.
Proof.
  intros Hne. induction l as [|y l IH]; intros Hx; simpl; [inversion Hx|].
  apply elem_of_cons in Hx. destruct (decide (y = uid)) as [->|Hy].
  - destruct Hx as [->|Hx]; [contradiction|exact Hx].
  - apply elem_of_cons. destruct Hx as [->|Hx]; [left; reflexivity|right; apply IH, Hx].
Qed.

Lemma remove_player_fields uid s :
  let s' := state_of (Table.remove_player uid s) in
  Table.host_id s' = Table.host_id s /\ Table.started s' = Table.started s /\
  Table.finished s' = Table.finished s /\
  (forall x, x <> uid -> x ∈ Table.order s -> x ∈ Table.order s').
Proof.
  unfold Table.remove_player. destruct (Table.started s || Table.finished s); [tauto|].
  destruct (decide (is_Some (Table.players s !! uid))); [|tauto]. simpl.
  repeat split. intros x Hne Hx. apply list_remove_first_keeps; assumption.
Qed.

Lemma deal_host uids : forall t t',
  Table.deal uids t = Ok tt t' -> Table.host_id t' = Table.host_id t.
Proof.
  induction uids as [|u uids IH]; intros t t' Hd; simpl in Hd.
  - unfold ret in Hd. congruence.
  - unfold bind, modify in Hd.
    destruct (Table.draw_ok t) as (a & t1 & Ha & _ & _ & _ & _ & _ & _ & _ & _ & _ & H1).
    destruct (Table.draw_ok t1) as (b & t2 & Hb & _ & _ & _ & _ & _ & _ & _ & _ & _ & H2).
    rewrite Ha, Hb in Hd. apply IH in Hd. simpl in Hd. congruence.
Qed.

Lemma start_fields s :
  let s' := state_of (Table.start s) in
  Table.host_id s' = Table.host_id s /\ Table.order s' = Table.order s.
Proof.
  cbv zeta. destruct (Table.started s || Table.finished s) eqn:Hsf.
  { unfold Table.start. rewrite Hsf. split; reflexivity. }
  destruct (Table.order s) as [|u0 us] eqn:Hord.
  { unfold Table.start. rewrite Hsf, Hord. simpl. rewrite Hord. split; reflexivity. }
  rewrite <- Hord. unfold Table.start. rewrite Hsf, Hord.
  unfold bind, modify, gets, ret.
  destruct (Table.draw_ok (Table.set_started true s))
    as (c1 & s1 & Hd1 & _ & _ & Ho1 & _ & _ & _ & _ & _ & _ & Hh1).
  destruct (Table.draw_ok s1) as (c2 & s2 & Hd2 & _ & _ & Ho2 & _ & _ & _ & _ & _ & _ & Hh2).
  rewrite Hd1, Hd2.
  destruct (Table.deal_ok (Table.order (Table.set_dealer [c1; c2] s2))
              (Table.set_dealer [c1; c2] s2)) as (s4 & Hdeal & (Ho4 & _) & _).
  rewrite Hdeal. simpl in *. apply deal_host in Hdeal. simpl in Hdeal.
  split; congruence.
Qed.

Lemma advance_turn_host s :
  Table.host_id (state_of (Table.advance_turn s)) = Table.host_id s.
Proof.
  destruct (negb (Table.started s) || Table.finished s) eqn:Hidle.
  { rewrite (Table.advance_turn_idle s Hidle). reflexivity. }
  apply orb_false_elim in Hidle as [Hs Hf]. apply negb_false_iff in Hs.
  destruct (Table.advance_turn_spec s Hs Hf) as (j & s' & -> & _ & _ & Hin & Hout).
  simpl. destruct (Table.order s !! j) as [x|] eqn:Hj.
  - destruct (Hin x eq_refl) as [_ ->]. reflexivity.
  - destruct (Hout eq_refl) as (s3 & Hdp & Hsa & _).
    destruct (Table.dealer_play_spec (Table.set_turn_index j s))
      as (dr & s3' & Hdp' & _ & _ & _ & _ & _ & _ & _ & _ & _ & _ & _ & Hh3).
    rewrite Hdp in Hdp'. inversion Hdp'; subst s3'.
    destruct (Table.settle_all_ok s3) as (r & Hsa' & _).
    rewrite Hsa in Hsa'. inversion Hsa'; subst s'. simpl in *. congruence.
Qed.

(** No operation changes the host, and the three play operations keep the
    seat order. *)
Lemma run_host (o : Table.op) (s : Table.Session) :
  Table.host_id (Table.run o s) = Table.host_id s.
Proof.
  destruct o as [uid|uid| |uid|uid|uid| ]; simpl.
  - apply add_player_fields.
  - apply remove_player_fields.
  - apply start_fields.
  - destruct (decide (Table.current_player_id s = Some uid)) as [Hcur|Hne].
    2:{ destruct (Table.not_actor_noop s uid Hne) as (-> & _). reflexivity. }
    destruct (Table.current_player_active s uid Hcur) as (Hs & Hf & _).
    destruct (Table.players s !! uid) as [hand|] eqn:Hhand.
    2:{ unfold Table.player_hit. rewrite Hs, Hf. simpl.
        destruct (decide (Table.current_player_id s <> Some uid)); [contradiction|].
        rewrite Hhand. reflexivity. }
    destruct (Table.player_hit_actor s uid hand Hcur Hhand) as (c & s1 & Hdr & ->).
    destruct (Table.draw_ok s) as (c' & s1' & Hdr' & _ & _ & _ & _ & _ & _ & _ & _ & _ & Hh1).
    rewrite Hdr in Hdr'. inversion Hdr'; subst c' s1'. cbv zeta.
    destruct (21 <? value_of (hand ++ [c])); [|simpl; exact Hh1].
    rewrite advance_turn_host. simpl. exact Hh1.
  - destruct (decide (Table.current_player_id s = Some uid)) as [Hcur|Hne].
    2:{ destruct (Table.not_actor_noop s uid Hne) as (_ & -> & _). reflexivity. }
    destruct (Table.current_player_active s uid Hcur) as (Hs & Hf & _).
    unfold Table.player_stand. rewrite Hs, Hf. simpl.
    destruct (decide (Table.current_player_id s <> Some uid)); [contradiction|].
    apply advance_turn_host.
  - destruct (decide (Table.current_player_id s = Some uid)) as [Hcur|Hne].
    2:{ destruct (Table.not_actor_noop s uid Hne) as (_ & _ & ->). reflexivity. }
    destruct (Table.current_player_active s uid Hcur) as (Hs & Hf & _).
    destruct (Table.players s !! uid) as [hand|] eqn:Hhand.
    2:{ unfold Table.player_double. rewrite Hs, Hf. simpl.
        destruct (decide (Table.current_player_id s <> Some uid)); [contradiction|].
        rewrite Hhand. reflexivity. }
    destruct (Table.player_double_actor s uid hand Hcur Hhand) as (c & s1 & Hdr & ->).
    destruct (Table.draw_ok s) as (c' & s1' & Hdr' & _ & _ & _ & _ & _ & _ & _ & _ & _ & Hh1).
    rewrite Hdr in Hdr'. inversion Hdr'; subst c' s1'.
    rewrite advance_turn_host. simpl. exact Hh1.
  - apply advance_turn_host.
Qed.

Lemma play_keeps_order (o : Table.op) (s : Table.Session) :
  match o with Table.Hit _ | Table.Stand _ | Table.Double _ => True | _ => False end ->
  Table.order (Table.run o s) = Table.order s.
Proof.
  intros Ho. destruct (Table.started s) eqn:Hs.
  - destruct (Table.finished s) eqn:Hf.
    + rewrite (finished_noop o s Hf). reflexivity.
    + apply (started_step o s Hs Hf).
  - assert (Hnone : forall uid, Table.current_player_id s <> Some uid).
    { intros uid. unfold Table.current_player_id. rewrite Hs. simpl. discriminate. }
    destruct o as [| | |uid|uid|uid| ]; try contradiction; simpl;
      destruct (Table.not_actor_noop s uid (Hnone uid)) as (H1 & H2 & H3);
      rewrite ?H1, ?H2, ?H3; reflexivity.
Qed.

(** A game button does what the session method does on the same input:
    the checks of the view repeat those of the method. *)
Lemma game_buttons_are_methods u s :
  Views.hit_btn u s = Table.player_hit u s /\
  Views.stand_btn u s = Table.player_stand u s /\
  Views.double_btn u s = Table.player_double u s.
Proof.
  unfold Views.hit_btn, Views.stand_btn, Views.double_btn.
  destruct (Table.finished s) eqn:Hf.
  - unfold Table.player_hit, Table.player_stand, Table.player_double.
    rewrite Hf. simpl. repeat split.
  - destruct (decide (Some u <> Table.current_player_id s)) as [Hne|_]; [|repeat split].
    assert (Hne' : Table.current_player_id s <> Some u) by congruence.
    destruct (Table.not_actor_noop s u Hne') as (-> & -> & ->). repeat split.
Qed.

(** One press keeps the host identity and the host's seat. *)
Lemma click_host_seat p s :
  Table.host_id (Views.click p s) = Table.host_id s /\
  (Table.host_id s ∈ Table.order s ->
   Table.host_id s ∈ Table.order (Views.click p s)).
Proof.
  destruct (game_buttons_are_methods (Views.user_of p) s) as (Hh & Hst & Hd).
  destruct p as [u|u|u|u|u|u|u]; simpl in *.
  - unfold Views.join_btn. destruct (Table.finished s); [tauto|].
    unfold bind, ret. pose proof (add_player_fields u s) as Hf. cbv zeta in Hf.
    destruct (Table.add_player u s); simpl in *; destruct Hf as (H1 & _ & _ & H4);
      (split; [exact H1|apply H4]).
  - unfold Views.leave_btn. destruct (decide (u = Table.host_id s)) as [Heq|Hne]; [tauto|].
    unfold bind, ret. pose proof (remove_player_fields u s) as Hf. cbv zeta in Hf.
    destruct (Table.remove_player u s); simpl in *; destruct Hf as (H1 & _ & _ & H4);
      (split; [exact H1|apply H4; congruence]).
  - unfold Views.start_btn. destruct (decide (u <> Table.host_id s)); [tauto|].
    unfold bind, ret. pose proof (start_fields s) as Hf. cbv zeta in Hf.
    destruct (Table.start s); simpl in *; destruct Hf as (H1 & H2);
      (split; [exact H1|rewrite H2; tauto]).
  - unfold Views.cancel_btn. destruct (decide (u <> Table.host_id s)); simpl; tauto.
  - rewrite Hh. split; [apply (run_host (Table.Hit u))|].
    pose proof (play_keeps_order (Table.Hit u) s I) as Ho. simpl in Ho.
    rewrite Ho. tauto.
  - rewrite Hst. split; [apply (run_host (Table.Stand u))|].
    pose proof (play_keeps_order (Table.Stand u) s I) as Ho. simpl in Ho.
    rewrite Ho. tauto.
  - rewrite Hd. split; [apply (run_host (Table.Double u))|].
    pose proof (play_keeps_order (Table.Double u) s I) as Ho. simpl in Ho.
    rewrite Ho. tauto.
Qed.



(** X21. Only the host can start or cancel a table: as long as no button
    is pressed by the host, a lobby stays a lobby, neither started nor
    finished, whatever the other users press. *)
Theorem X21_only_host_starts_or_cancels (ps : list Views.press) (s : Table.Session) :
  Table.started s = false -> Table.finished s = false ->
  Forall (fun p => Views.user_of p <> Table.host_id s) ps ->
  Table.started (Views.clicks ps s) = false /\
  Table.finished (Views.clicks ps s) = false.
Proof.
  revert s. induction ps as [|p ps IH]; intros s Hs Hf Hall; simpl.
  - split; assumption.
  - apply Forall_cons in Hall as [Hp Hall].
    destruct (click_host_seat p s) as [Hh _].
    assert (Hstep : Table.started (Views.click p s) = false /\
                    Table.finished (Views.click p s) = false).
    { assert (Hnone : forall uid, Table.current_player_id s <> Some uid).
      { intros uid. unfold Table.current_player_id. rewrite Hs. simpl. discriminate. }
      destruct (game_buttons_are_methods (Views.user_of p) s) as (Hhit & Hst & Hd).
      destruct (Table.not_actor_noop s (Views.user_of p) (Hnone _)) as (H1 & H2 & H3).
      destruct p as [u|u|u|u|u|u|u]; simpl in *.
      - unfold Views.join_btn. rewrite Hf. unfold bind, ret.
        pose proof (add_player_fields u s) as Hfl. cbv zeta in Hfl.
        destruct (Table.add_player u s); simpl in *; destruct Hfl as (_ & H5 & H6 & _);
          split; congruence.
      - unfold Views.leave_btn. destruct (decide (u = Table.host_id s)); [tauto|].
        unfold bind, ret.
        pose proof (remove_player_fields u s) as Hfl. cbv zeta in Hfl.
        destruct (Table.remove_player u s); simpl in *; destruct Hfl as (_ & H5 & H6 & _);
          split; congruence.
      - unfold Views.start_btn.
        destruct (decide (u <> Table.host_id s)); [tauto|contradiction].
      - unfold Views.cancel_btn.
        destruct (decide (u <> Table.host_id s)); [tauto|contradiction].
      - rewrite Hhit, H1. tauto.
      - rewrite Hst, H2. tauto.
      - rewrite Hd, H3. tauto. }
    destruct Hstep as [Hs' Hf']. apply IH; try assumption. rewrite Hh. exact Hall.
Qed.

Lemma X21_only_host_starts_or_cancels_witness :
  Table.started (Views.clicks [Views.Join 12; Views.StartBtn 12; Views.Cancel 13;
                               Views.HitBtn 12] lobby_table) = false /\
  Table.finished (Views.clicks [Views.Join 12; Views.StartBtn 12; Views.Cancel 13;
                                Views.HitBtn 12] lobby_table) = false.
Proof.
  apply X21_only_host_starts_or_cancels.
  - vm_compute. reflexivity.
  - vm_compute. reflexivity.
  - repeat constructor; vm_compute; discriminate.
Defined.

(* ================================================================== *)
(** ** The registry of solo sessions: [Blackjack.sessions]

    The registry is the dictionary of the cog taken at the time of the
    command, each key with the state its session object then has.  The
    generator [g] is the state [random] is in when a session is built. *)
Module Cog.

Definition _key (guild_id user_id : Z) : Z * Z := (guild_id, user_id).

(** [_make_session]: a new session, dealt, stored under the key. *)
Definition _make_session (guild_id user_id : Z) (g : Random.Rng) :
    M (gmap (Z * Z) Solo.Session) Solo.Session := fun sessions =>
  match Solo.start (Solo.init user_id g) with
  | Ok _ sess => Ok sess (<[_key guild_id user_id := sess]> sessions)
  | Raise e _ => Raise e sessions
  end.

(** [_remove_session]: [self.sessions.pop(key, None)]. *)
Definition _remove_session (guild_id user_id : Z) :
    M (gmap (Z * Z) Solo.Session) unit :=
  modify (delete (_key guild_id user_id)).

(** The session the [blackjack] command plays on: the existing one when
    there is one and it is not finished, else a new one. *)
Definition blackjack (ctx_id user_id : Z) (g : Random.Rng) :
    M (gmap (Z * Z) Solo.Session) Solo.Session := fun sessions =>
  match sessions !! _key ctx_id user_id with
  | Some existing =>
      if negb (Solo.finished existing) then Ok existing sessions
      else _make_session ctx_id user_id g sessions
  | None => _make_session ctx_id user_id g sessions
  end.

End Cog.

(** Every session of the registry belongs to the user of its key. *)
Definition owners_ok (sessions : gmap (Z * Z) Solo.Session) : Prop :=
  forall ctx user sess, sessions !! (ctx, user) = Some sess -> Solo.player_id sess = user.

Lemma solo_draw_length s :
  (1 <= length (Solo.deck s))%nat ->
  exists c s',
    Solo.draw s = Ok c s' /\
    (length (Solo.deck s') + 1 = length (Solo.deck s))%nat /\
    Solo.player s' = Solo.player s /\ Solo.dealer s' = Solo.dealer s /\
    Solo.finished s' = Solo.finished s /\ Solo.result s' = Solo.result s /\
    Solo.player_id s' = Solo.player_id s.
Proof.
  intros Hlen.
  destruct (Solo.deck s) as [|x l _] eqn:Hdeck using rev_ind; [simpl in Hlen; lia|].
  exists x. eexists. split; [apply (solo_draw_top s l x Hdeck)|].
  simpl. rewrite length_app. simpl. repeat split.
Qed.

Lemma make_session_ok ctx user g sessions : exists sess,
  Cog._make_session ctx user g sessions = Ok sess (<[(ctx, user) := sess]> sessions) /\
  Solo.player_id sess = user /\ Solo.finished sess = false /\ Solo.result sess = None /\
  length (Solo.player sess) = 2%nat /\ length (Solo.dealer sess) = 2%nat /\
  length (Solo.deck sess) = 100%nat.
Proof.
  unfold Cog._make_session, Cog._key.
  assert (Hinit : Solo.player_id (Solo.init user g) = user /\
                  Solo.finished (Solo.init user g) = false /\
                  Solo.result (Solo.init user g) = None /\
                  length (Solo.deck (Solo.init user g)) = 104%nat).
  { unfold Solo.init, Solo.reshuffle. cbn [Solo.rng].
    pose proof (shuffle_length (make_deck ++ make_deck) g) as Hl.
    destruct (Random.shuffle (make_deck ++ make_deck) g) as [d g']. simpl in *.
    repeat split. exact Hl. }
  destruct Hinit as (Hi & Hf & Hr & Hl).
  generalize dependent (Solo.init user g). intros s0 Hi Hf Hr Hl.
  unfold Solo.start, bind, modify.
  destruct (solo_draw_length s0) as (c1 & s1 & -> & Hl1 & _ & _ & Hf1 & Hr1 & Hi1); [lia|].
  destruct (solo_draw_length s1) as (c2 & s2 & -> & Hl2 & _ & _ & Hf2 & Hr2 & Hi2); [lia|].
  destruct (solo_draw_length (Solo.set_player [c1; c2] s2))
    as (c3 & s3 & -> & Hl3 & Hp3 & _ & Hf3 & Hr3 & Hi3); [simpl; lia|].
  destruct (solo_draw_length s3) as (c4 & s4 & -> & Hl4 & Hp4 & _ & Hf4 & Hr4 & Hi4);
    [simpl in Hl3; lia|].
  eexists. split; [reflexivity|]. simpl in *.
  split; [congruence|]. split; [congruence|]. split; [congruence|].
  split; [rewrite Hp4, Hp3; reflexivity|]. split; [reflexivity|]. lia.
Qed.

(** X22. The [blackjack] command always ends with an unfinished session of
    the caller stored under the caller's key, and touches no other key.
    An unfinished session already there is handed back as it is, without
    a new deal; otherwise the entry is replaced by a new session dealt two
    cards each from a full shoe.  Registries in which every session
    belongs to the user of its key stay so. *)
Theorem X22_blackjack_command (ctx user : Z) (g : Random.Rng)
    (sessions : gmap (Z * Z) Solo.Session) :
  exists sess sessions',
    Cog.blackjack ctx user g sessions = Ok sess sessions' /\
    sessions' !! (ctx, user) = Some sess /\
    Solo.finished sess = false /\
    (forall k, k <> (ctx, user) -> sessions' !! k = sessions !! k) /\
    (forall existing, sessions !! (ctx, user) = Some existing ->
       Solo.finished existing = false -> sess = existing /\ sessions' = sessions) /\
    ((forall existing, sessions !! (ctx, user) = Some existing ->
        Solo.finished existing = true) ->
     Solo.player_id sess = user /\ Solo.result sess = None /\
     length (Solo.player sess) = 2%nat /\ length (Solo.dealer sess) = 2%nat /\
     length (Solo.deck sess) = 100%nat) /\
    (owners_ok sessions -> owners_ok sessions').
Proof.
  destruct (make_session_ok ctx user g sessions)
    as (fresh & Hmk & Hid & Hfin & Hres & Hp & Hd & Hdk).
  assert (Hnew : Cog.blackjack ctx user g sessions
                   = Ok fresh (<[(ctx, user) := fresh]> sessions) ->
    exists sess sessions',
      Cog.blackjack ctx user g sessions = Ok sess sessions' /\
      sessions' !! (ctx, user) = Some sess /\
      Solo.finished sess = false /\
      (forall k, k <> (ctx, user) -> sessions' !! k = sessions !! k) /\
      (forall existing, sessions !! (ctx, user) = Some existing ->
         Solo.finished existing = false ->
         Cog.blackjack ctx user g sessions = Ok existing sessions) /\
      (Solo.player_id sess = user /\ Solo.result sess = None /\
       length (Solo.player sess) = 2%nat /\ length (Solo.dealer sess) = 2%nat /\
       length (Solo.deck sess) = 100%nat) /\
      (owners_ok sessions -> owners_ok sessions')).
  { intros Hb. exists fresh, (<[(ctx, user) := fresh]> sessions).
    split; [exact Hb|]. split; [apply lookup_insert_eq|]. split; [exact Hfin|].
    split; [intros k Hk; apply lookup_insert_ne; congruence|].
    split.
    { intros existing He Hf. unfold Cog.blackjack, Cog._key. rewrite He, Hf. reflexivity. }
    split; [tauto|].
    intros Hown c u x Hx. destruct (decide ((ctx, user) = (c, u))) as [Heq|Hne].
    - rewrite Heq, lookup_insert_eq in Hx. inversion Heq; subst. congruence.
    - rewrite lookup_insert_ne in Hx by assumption. eapply Hown, Hx. }
  destruct (sessions !! (ctx, user)) as [existing|] eqn:He.
  - destruct (Solo.finished existing) eqn:Hf.
    + destruct Hnew as (sess & sessions' & Hb & H1 & H2 & H3 & H4 & H5 & H6).
      { unfold Cog.blackjack, Cog._key. rewrite He, Hf. exact Hmk. }
      exists sess, sessions'. split; [exact Hb|]. split; [exact H1|].
      split; [exact H2|]. split; [exact H3|]. split.
      { intros x Hx Hxf. inversion Hx; subst. congruence. }
      split; [intros _; exact H5|exact H6].
    + exists existing, sessions. split.
      { unfold Cog.blackjack, Cog._key. rewrite He, Hf. reflexivity. }
      split; [exact He|]. split; [exact Hf|]. split; [reflexivity|]. split.
      { intros x Hx _. inversion Hx; subst. split; reflexivity. }
      split; [|tauto]. intros Hall. specialize (Hall existing eq_refl). congruence.
  - destruct Hnew as (sess & sessions' & Hb & H1 & H2 & H3 & H4 & H5 & H6).
    { unfold Cog.blackjack, Cog._key. rewrite He. exact Hmk. }
    exists sess, sessions'. split; [exact Hb|]. split; [exact H1|].
    split; [exact H2|]. split; [exact H3|]. split.
    { intros x Hx. discriminate Hx. }
    split; [intros _; exact H5|exact H6].
Qed.
